(** * sshego: the idle-timeout actor and the RSA key loaders

    A shallow embedding of [idleTimer] (its constructor, the actor loop of
    [backgroundStart], the client side of [GetIdleTimeout] and [Stop]) and
    of [LoadRSAPrivateKey] / [LoadRSAPublicKey] from [rsa.go].

    The actor loop is a [select] over channels.  One iteration of the loop
    is the function [step]: it takes the loop's state and the case the
    [select] picked, and returns the next state with the effects the
    iteration performed (tickers created and stopped, channels closed,
    values sent, goroutines started). *)

From Stdlib Require Import ZArith List String Bool Lia.
Import ListNotations.
Local Open Scope Z_scope.

(** ** Machine integers *)

Module Int.

Definition two64 : Z := 2 ^ 64.
Definition max_int64 : Z := 2 ^ 63 - 1.
Definition min_int64 : Z := - 2 ^ 63.

(** [time.Duration] is an [int64]. *)
Definition is_int64 (d : Z) : Prop := min_int64 <= d <= max_int64.

(** A [uint64] value. *)
Definition is_uint64 (n : Z) : Prop := 0 <= n < two64.

(** The Go conversion [uint64(d)] of an [int64]: the two's complement bits
    read as unsigned. *)
Definition uint64 (d : Z) : Z := d mod two64.

(** Subtraction on [uint64] wraps around. *)
Definition sub64 (a b : Z) : Z := (a - b) mod two64.

End Int.

(** ** Data model of the idle timer *)

Module IdleTimer.

Import Int.

(** A [func()] value is opaque to the timer: it is only stored, compared
    with [nil] and started.  Callbacks are named by a number; [None] is the
    [nil] function. *)
Definition Callback : Type := nat.

(** A channel created by [make(chan struct{})] for one ticket. *)
Definition ChanId : Type := nat.

(** [*time.Ticker]: the pointer is the ticker's identity, [tk_period] the
    argument of [time.NewTicker]. *)
Record Ticker : Type := mkTicker { tk_id : nat; tk_period : Z }.

(** [setTimeoutTicket]. *)
Record setTimeoutTicket : Type := mkTicket { newdur : Z; done : ChanId }.

(** The state one loop iteration reads and writes: the fields of
    [idleTimer] the loop uses ([last], [timeoutCallback], [timeOutRaised])
    and the locals of the goroutine ([dur], [heartbeat], [heartch]).
    [heartch = None] is the [nil] channel.  [nextTicker] names the next
    ticker [time.NewTicker] allocates.  The struct fields [mut] and
    [idleDur] are never touched by the code and are left out. *)
Record Actor : Type := mkActor {
  last : Z;
  timeoutCallback : option Callback;
  timeOutRaised : bool;
  dur : Z;
  heartbeat : option Ticker;
  heartch : option Ticker;
  nextTicker : nat
}.

(** What an iteration does to the world outside the loop's own state. *)
Inductive Effect : Type :=
| EffNewTicker (id : nat) (d : Z)     (* time.NewTicker(d) *)
| EffTickerStop (id : nat)            (* heartbeat.Stop() *)
| EffSendTimedOut (b : bool)          (* t.TimedOut <- t.timeOutRaised *)
| EffSendDur (d : Z)                  (* t.getIdleTimeoutCh <- dur *)
| EffCloseTicket (c : ChanId)         (* close(tk.done) *)
| EffStoreLast (now : Z)              (* t.Reset() called by the loop *)
| EffGo (f : Callback)                (* go t.timeoutCallback() *)
| EffCloseReqStop                     (* t.halt.ReqStop.Close() *)
| EffCloseDone.                       (* t.halt.Done.Close() *)

(** The case the [select] picks.  [monoNow] is not part of the package
    source: the reading of the monotonic clock ([uint64] nanoseconds) an
    iteration would obtain is carried by the event.  [EvReset] is not a
    [select] case: it is a caller's [t.Reset()], an atomic store to [last]
    that happens between two iterations. *)
Inductive Event : Type :=
| EvReqStop                                        (* <-t.halt.ReqStop.Chan *)
| EvTimedOut                                       (* t.TimedOut <- ... *)
| EvSetCallback (f : option Callback)              (* f := <-t.setCallback *)
| EvGetIdleTimeout                                 (* t.getIdleTimeoutCh <- dur *)
| EvSetIdleTimeout (tk : setTimeoutTicket) (now : Z) (* tk := <-t.setIdleTimeoutCh *)
| EvHeartbeat (now : Z)                            (* <-heartch *)
| EvReset (now : Z).                               (* t.Reset() by a caller *)

Inductive Outcome : Type :=
| Continue (a : Actor) (effs : list Effect)   (* next iteration *)
| Return (a : Actor) (effs : list Effect)     (* the goroutine returned *)
| Panic (msg : string) (a : Actor) (effs : list Effect)
| NotReady.                                   (* select cannot pick the case *)

(** [Reset]: [atomic.StoreUint64(&t.last, monoNow())]. *)
Definition Reset (a : Actor) (now : Z) : Actor :=
  mkActor now (timeoutCallback a) (timeOutRaised a) (dur a)
          (heartbeat a) (heartch a) (nextTicker a).

(** [NanosecSince]: [monoNow() - atomic.LoadUint64(&t.last)]. *)
Definition NanosecSince (a : Actor) (now : Z) : Z := sub64 now (last a).

(** [if heartbeat != nil { heartbeat.Stop() }]. *)
Definition stopHeartbeat (a : Actor) : list Effect :=
  match heartbeat a with
  | Some h => [EffTickerStop (tk_id h)]
  | None => []
  end.

(** The deferred function of the goroutine; it also runs when the
    goroutine panics. *)
Definition deferred (a : Actor) : list Effect :=
  stopHeartbeat a ++ [EffCloseDone].

Definition set_timeoutCallback (a : Actor) (f : option Callback) : Actor :=
  mkActor (last a) f (timeOutRaised a) (dur a)
          (heartbeat a) (heartch a) (nextTicker a).

(** [dur = d; heartbeat = nil; heartch = nil; t.timeOutRaised = raised]. *)
Definition disarm (a : Actor) (d : Z) (raised : bool) : Actor :=
  mkActor (last a) (timeoutCallback a) raised d None None (nextTicker a).

(** [dur = d; heartbeat = time.NewTicker(dur); heartch = heartbeat.C;
    t.Reset()] with [t.timeOutRaised = raised]. *)
Definition arm (a : Actor) (d : Z) (raised : bool) (now : Z) : Actor :=
  let h := mkTicker (nextTicker a) d in
  mkActor now (timeoutCallback a) raised d (Some h) (Some h)
          (S (nextTicker a)).

Definition panic_dur0 : string :=
  "should be impossible to get heartbeat.C on dur == 0".
Definition panic_nocallback : string :=
  "idleTimer.timeoutCallback was never set! call t.setTimeoutCallback()!!!".

(** One iteration of the [for { select { ... } }] loop. *)
Definition step (a : Actor) (ev : Event) : Outcome :=
  match ev with
  | EvReqStop => Return a (deferred a)
  | EvTimedOut => Continue a [EffSendTimedOut (timeOutRaised a)]
  | EvSetCallback f => Continue (set_timeoutCallback a f) []
  | EvGetIdleTimeout => Continue a [EffSendDur (dur a)]
  | EvSetIdleTimeout tk now =>
      if 0 <? dur a then
        (* timeouts active currently *)
        if newdur tk =? dur a then
          Continue a [EffCloseTicket (done tk)]
        else if newdur tk <=? 0 then
          (* stopping timeouts *)
          Continue (disarm a (newdur tk) false)
                   (stopHeartbeat a ++ [EffCloseTicket (done tk)])
        else
          (* changing an active timeout dur *)
          Continue (arm a (newdur tk) (timeOutRaised a) now)
                   (stopHeartbeat a ++
                    [EffNewTicker (nextTicker a) (newdur tk);
                     EffStoreLast now;
                     EffCloseTicket (done tk)])
      else
        (* heartbeats not currently active *)
        if newdur tk <=? 0 then
          (* staying inactive *)
          Continue (mkActor (last a) (timeoutCallback a) (timeOutRaised a) 0
                            (heartbeat a) (heartch a) (nextTicker a))
                   [EffCloseTicket (done tk)]
        else
          (* heartbeats activating *)
          Continue (arm a (newdur tk) false now)
                   [EffNewTicker (nextTicker a) (newdur tk);
                    EffStoreLast now;
                    EffCloseTicket (done tk)]
  | EvHeartbeat now =>
      match heartch a with
      | None => NotReady
      | Some _ =>
          if dur a =? 0 then
            Panic panic_dur0 a (deferred a)
          else if uint64 (dur a) <? NanosecSince a now then
            let a' := mkActor (last a) (timeoutCallback a) true (dur a)
                              None None (nextTicker a) in
            match timeoutCallback a with
            | None => Panic panic_nocallback a'
                            (stopHeartbeat a ++ deferred a')
            | Some f => Continue a' (stopHeartbeat a ++ [EffGo f])
            end
          else Continue a []
      end
  | EvReset now => Continue (Reset a now) []
  end.

(** [newIdleTimer(callback, dur)] followed by the start of the goroutine of
    [backgroundStart] up to its loop: the struct is zero apart from the
    callback, and a ticker is created when [dur > 0]. *)
Definition newIdleTimer (callback : option Callback) (d : Z)
  : Actor * list Effect :=
  if 0 <? d then
    let h := mkTicker 0 d in
    (mkActor 0 callback false d (Some h) (Some h) 1, [EffNewTicker 0 d])
  else
    (mkActor 0 callback false d None None 0, []).

(** A run of the loop over the cases the [select] picks, in order.  A case
    that is not ready is not picked: the event does not happen.  The run
    ends when the goroutine returns or panics. *)
Inductive Status : Type :=
| Running (a : Actor)
| Returned (a : Actor)
| Panicked (msg : string) (a : Actor).

Fixpoint run (a : Actor) (evs : list Event) : Status * list Effect :=
  match evs with
  | [] => (Running a, [])
  | ev :: rest =>
      match step a ev with
      | Continue a' es => let r := run a' rest in (fst r, es ++ snd r)
      | Return a' es => (Returned a', es)
      | Panic m a' es => (Panicked m a', es)
      | NotReady => run a rest
      end
  end.

(** The tickers that are running after a sequence of effects, given the
    ones running before it. *)
Definition ticker_effect (live : list nat) (e : Effect) : list nat :=
  match e with
  | EffNewTicker id _ => id :: live
  | EffTickerStop id => remove Nat.eq_dec id live
  | _ => live
  end.

Definition liveTickers (live : list nat) (effs : list Effect) : list nat :=
  fold_left ticker_effect effs live.

Definition is_go (e : Effect) : bool :=
  match e with EffGo _ => true | _ => false end.

Definition is_close_done (e : Effect) : bool :=
  match e with EffCloseDone => true | _ => false end.

Definition is_store_last (e : Effect) : bool :=
  match e with EffStoreLast _ => true | _ => false end.

(** The values the loop sent on [t.TimedOut] and on [t.getIdleTimeoutCh]. *)
Fixpoint sentTimedOut (effs : list Effect) : list bool :=
  match effs with
  | [] => []
  | EffSendTimedOut b :: r => b :: sentTimedOut r
  | _ :: r => sentTimedOut r
  end.

Fixpoint sentDur (effs : list Effect) : list Z :=
  match effs with
  | [] => []
  | EffSendDur d :: r => d :: sentDur r
  | _ :: r => sentDur r
  end.

(** An event that can start the periodic check: a [SetIdleTimeout] with a
    positive duration. *)
Definition arming (ev : Event) : bool :=
  match ev with
  | EvSetIdleTimeout tk _ => 0 <? newdur tk
  | _ => false
  end.

Definition is_timedout_query (ev : Event) : bool :=
  match ev with EvTimedOut => true | _ => false end.

(** ** Predicates on loop states, events and effects *)

(** The timer is armed: a positive duration, the fired flag down and the
    periodic check running on the ticker the loop holds. *)
Definition Armed (a : Actor) : Prop :=
  0 < dur a /\ timeOutRaised a = false /\
  exists h, heartbeat a = Some h /\ heartch a = Some h.

(** The timer is fired: the flag is up and no periodic check runs. *)
Definition Fired (a : Actor) : Prop :=
  0 < dur a /\ timeOutRaised a = true /\
  heartbeat a = None /\ heartch a = None.

(** No periodic check: the loop holds no ticker and its tick channel is
    nil. *)
Definition Unticked (a : Actor) : Prop :=
  heartbeat a = None /\ heartch a = None.

Definition quiet (evs : list Event) : bool :=
  forallb (fun ev => negb (arming ev)) evs.

Definition no_go (effs : list Effect) : bool :=
  forallb (fun e => negb (is_go e)) effs.

(** A timer built with a 50ns timeout and callback 1: armed from the
    start. *)
Definition timer50 : Actor := fst (newIdleTimer (Some 1%nat) 50).

(** A timer built with 50ns and no callback, and a loop state that holds a
    ticker while its duration is 0. *)
Definition timer50_nocb : Actor := fst (newIdleTimer None 50).

Definition ticking_dur0 : Actor :=
  mkActor 0 (Some 1%nat) false 0
          (Some (mkTicker 0 50)) (Some (mkTicker 0 50)) 1.

(** The ticker the loop holds, as the list of running tickers. *)
Definition held (a : Actor) : list nat :=
  match heartbeat a with
  | Some h => [tk_id h]
  | None => []
  end.

Definition no_close_done (effs : list Effect) : bool :=
  forallb (fun e => negb (is_close_done e)) effs.

(** The effects of a loop that has ended: [t.halt.Done] is closed last,
    once, and no ticker is running at that point. *)
Definition ends_cleanly (live : list nat) (effs : list Effect) : Prop :=
  exists pre,
    effs = pre ++ [EffCloseDone] /\ no_close_done pre = true /\
    liveTickers live pre = [].

(** The loop holds a ticker only while its duration is positive. *)
Definition coherent (a : Actor) : Prop :=
  heartbeat a = None \/ 0 < dur a.

(** ** Observations on runs *)

(** The most tickers running at once along a sequence of effects. *)
Fixpoint peakLive (live : list nat) (effs : list Effect) : nat :=
  match effs with
  | [] => List.length live
  | e :: r =>
      Nat.max (List.length live) (peakLive (ticker_effect live e) r)
  end.

(** [time.NewTicker] panics on a duration that is not positive. *)
Definition positive_ticker (e : Effect) : bool :=
  match e with
  | EffNewTicker _ d => 0 <? d
  | _ => true
  end.

(** The ticket channels closed, and the callbacks started, in order. *)
Fixpoint closedTickets (effs : list Effect) : list ChanId :=
  match effs with
  | [] => []
  | EffCloseTicket c :: r => c :: closedTickets r
  | _ :: r => closedTickets r
  end.

Fixpoint started (effs : list Effect) : list Callback :=
  match effs with
  | [] => []
  | EffGo f :: r => f :: started r
  | _ :: r => started r
  end.

(** The tickets of the [SetIdleTimeout] requests among the events. *)
Fixpoint ticketsOf (evs : list Event) : list ChanId :=
  match evs with
  | [] => []
  | EvSetIdleTimeout tk _ :: r => done tk :: ticketsOf r
  | _ :: r => ticketsOf r
  end.

Definition is_heartbeat (ev : Event) : bool :=
  match ev with EvHeartbeat _ => true | _ => false end.

Definition no_heartbeat (evs : list Event) : bool :=
  forallb (fun ev => negb (is_heartbeat ev)) evs.

(** How the loop's locals hang together: the tick channel is the channel
    of the ticker held, a ticker is held only under a positive duration
    and ticks at that duration, and the fired flag is down while the
    duration is not positive. *)
Definition wired (a : Actor) : Prop :=
  heartch a = heartbeat a /\
  (forall h, heartbeat a = Some h -> 0 < dur a /\ tk_period h = dur a) /\
  (dur a <= 0 -> timeOutRaised a = false).


(** ** The callers' side *)

(** [GetIdleTimeout]: the [select] either receives the value the loop sent
    on [getIdleTimeoutCh] ([Some d]) or picks [<-t.halt.ReqStop.Chan]
    ([None]), and then the named result keeps its zero value. *)
Definition GetIdleTimeout (received : option Z) : Z :=
  match received with
  | Some d => d
  | None => 0
  end.

(** [10 * time.Second], in nanoseconds. *)
Definition stopGrace : Z := 10 * 1000000000.

Definition panic_stop : string :=
  "idleTimer.Stop() problem! t.halt.Done.Chan not received  after 10sec! serious problem".

Inductive StopResult : Type :=
| StopReturned
| StopPanicked (msg : string).

(** Modelled from the spec: the type of [t.halt] (the canceller, with its
    two one-shot signals [ReqStop] and [Done]) is not in the source.  A
    signal is closed once and a receive on it is ready from then on.

    The [select] of [Stop] between [<-t.halt.Done.Chan] and
    [<-time.After(10 * time.Second)]: [doneAt] is the time, in nanoseconds
    after the [select] starts, at which [Done] is closed ([None]: it never
    is).  The first case that becomes ready is taken; when both become
    ready at the same instant either may be. *)
Inductive StopSelect (doneAt : option Z) : StopResult -> Prop :=
| sel_done (d : Z) :
    doneAt = Some d -> d <= stopGrace -> StopSelect doneAt StopReturned
| sel_after :
    (forall d, doneAt = Some d -> stopGrace <= d) ->
    StopSelect doneAt (StopPanicked panic_stop).

(** [Stop]: [t.halt.ReqStop.Close()], then the [select]. *)
Definition Stop (doneAt : option Z) (effs : list Effect) (r : StopResult)
  : Prop :=
  effs = [EffCloseReqStop] /\ StopSelect doneAt r.

End IdleTimer.

(** ** The key loaders of rsa.go *)

Module RSA.

Local Open Scope string_scope.



Section Loaders.

(** [ssh.Signer] and [ssh.PublicKey]; [None] is the nil interface.  An
    [error] is given by its message, [None] is the nil error. *)
Variables Signer PublicKey : Type.

(** [ioutil.ReadFile], [ssh.ParsePrivateKey] and [ssh.ParseAuthorizedKey]
    (of which the loader keeps the first and the last result) are
    external to the package; each returns a Go result tuple. *)
Variable ReadFile : string -> string * option string.
Variable ParsePrivateKey : string -> option Signer * option string.
Variable ParseAuthorizedKey : string -> option PublicKey * option string.







End Loaders.

(** ** Key generation and the files it writes *)

(** The line feed that ends an authorized-key line. *)
Definition nl : string := String (Ascii.ascii_of_nat 10) EmptyString.

(** The files [ioutil.ReadFile] and [ioutil.WriteFile] see: a path is
    bound to the bytes of the file and its permission bits; the first
    binding of a path is the current one. *)
Record File : Type := mkFile { content : string; perm : Z }.

Definition FS : Type := list (string * File).

Fixpoint lookup (fs : FS) (path : string) : option File :=
  match fs with
  | [] => None
  | (p, f) :: rest => if (p =? path)%string then Some f else lookup rest path
  end.

(** [ioutil.ReadFile]: the bytes of the file, or an error when there is
    none. *)
Definition ReadFile (fs : FS) (path : string) : string * option string :=
  match lookup fs path with
  | Some f => (content f, None)
  | None => ("", Some ("open " ++ path ++ ": no such file or directory"))
  end.

(** The result of code that may panic and writes files: it ends with a
    value or in a panic, and with the files as they are then. *)
Inductive Res (A : Type) : Type :=
| Done (x : A) (fs : FS)
| Crash (fs : FS).

Arguments Done {A} x fs.
Arguments Crash {A} fs.

Definition M (A : Type) : Type := FS -> Res A.

Definition ret {A : Type} (x : A) : M A := fun fs => Done x fs.

Definition crash {A : Type} : M A := fun fs => Crash fs.

Definition bind {A B : Type} (c : M A) (k : A -> M B) : M B :=
  fun fs =>
    match c fs with
    | Done x fs' => k x fs'
    | Crash fs' => Crash fs'
    end.

Notation "x <- c ;; k" := (bind c (fun x => k))
  (at level 61, c at next level, right associativity).
Notation "c ;;; k" := (bind c (fun _ => k))
  (at level 61, right associativity).


Section KeyGen.

(** [*rsa.PrivateKey], [*rsa.PublicKey], [ssh.Signer], [ssh.PublicKey]. *)
Variables PrivateKey RSAPublicKey Signer SSHPublicKey : Type.

(** The library calls of [GenRSAKeyPair] and [RSAToSSHPublicKey], each
    with its Go result tuple: [rsa.GenerateKey(cryptrand.Reader, bits)],
    [privKey.Public()], [privKey.Validate()], the PEM encoding of the
    PKCS1 bytes of the key, [ssh.ParsePrivateKey], [ssh.NewPublicKey] and
    [ssh.MarshalAuthorizedKey]. *)
Variable GenerateKey : Z -> option PrivateKey * option string.
Variable Public : PrivateKey -> RSAPublicKey.
Variable Validate : PrivateKey -> option string.
Variable EncodePEM : PrivateKey -> string.
Variable ParsePrivateKey : string -> option Signer * option string.
Variable NewPublicKey : RSAPublicKey -> option SSHPublicKey * option string.
Variable MarshalAuthorizedKey : SSHPublicKey -> string.

(** [panicOn] is a helper of the package that is not in these files: it
    is given by the errors on which it panics. *)
Variable panicOn : option string -> bool.

(** The error of a [WriteFile] that fails, for the files as they are and
    the path; a write that fails is taken to leave the files alone. *)
Variable writeError : FS -> string -> option string.

Definition panicOnM (err : option string) : M unit :=
  if panicOn err then crash else ret tt.

(** [ioutil.WriteFile(path, data, mode)]: a new file gets the permission
    bits [mode], a file that exists is truncated and keeps its own. *)
Definition WriteFile (path data : string) (mode : Z) : M (option string) :=
  fun fs =>
    match writeError fs path with
    | Some e => Done (Some e) fs
    | None =>
        let m := match lookup fs path with
                 | Some f => perm f
                 | None => mode
                 end in
        Done None ((path, mkFile data m) :: fs)
    end.

(** [RSAToSSHPublicKey]; a nil key that gets past [panicOn] makes
    [ssh.MarshalAuthorizedKey] panic. *)
Definition RSAToSSHPublicKey (pubkey : RSAPublicKey) : M string :=
  let (pub, err) := NewPublicKey pubkey in
  panicOnM err ;;;
  match pub with
  | Some k => ret (MarshalAuthorizedKey k)
  | None => crash
  end.

(** The block of [GenRSAKeyPair] that adds the email:
    [append(pubBytes[:n-1], " " + email + "\n")] with [n = len(pubBytes)];
    the slice expression panics when [n] is 0. *)
Definition appendEmail (pubBytes email : string) : M string :=
  match String.length pubBytes with
  | O => crash
  | S n' => ret (substring 0 n' pubBytes ++ " " ++ email ++ nl)
  end.

(** The permission bits [0600]. *)
Definition mode0600 : Z := 384.

(** [GenRSAKeyPair]; the logging calls [p(...)] are left out.  A nil key
    that gets past [panicOn] makes [privKey.Public()] panic. *)
Definition GenRSAKeyPair (rsaFile : string) (bits : Z) (email : string)
  : M (PrivateKey * option Signer * option string) :=
  let (priv, err) := GenerateKey bits in
  panicOnM err ;;;
  match priv with
  | None => crash
  | Some privKey =>
      let pubKey := Public privKey in
      panicOnM (Validate privKey) ;;;
      let privBytes := EncodePEM privKey in
      let (sshPrivKey, err) := ParsePrivateKey privBytes in
      panicOnM err ;;;
      (if (rsaFile =? "")%string then ret tt
       else
         pubBytes <- RSAToSSHPublicKey pubKey ;;
         pubBytes <- (if (email =? "")%string then ret pubBytes
                      else appendEmail pubBytes email) ;;
         err <- WriteFile rsaFile privBytes mode0600 ;;
         panicOnM err ;;;
         err <- WriteFile (rsaFile ++ ".pub") pubBytes mode0600 ;;
         panicOnM err) ;;;
      ret (privKey, sshPrivKey, None)
  end.

End KeyGen.

(** A stand-in for the key library, on which the code can be run: keys
    are numbers, the PEM bytes of key [k] are ["PEM"], its authorized-key
    line is ["ssh-rsa AAAA"] and a line feed, no call fails, and
    [panicOn] panics on every error. *)
Definition toyPanicOn (e : option string) : bool :=
  match e with
  | Some _ => true
  | None => false
  end.

Definition toyGen (writeError : FS -> string -> option string)
  : string -> Z -> string -> M (nat * option string * option string) :=
  GenRSAKeyPair nat nat string nat
    (fun _ => (Some 7%nat, None)) (fun k => k) (fun _ => None)
    (fun _ => "PEM") (fun b => (Some b, None))
    (fun k => (Some k, None)) (fun _ => "ssh-rsa AAAA" ++ nl)
    toyPanicOn writeError.

End RSA.

(** * Properties *)

Section IntFacts.

Import Int.

Lemma uint64_of_nonneg (d : Z) : 0 <= d -> d <= max_int64 -> uint64 d = d.
Proof.
  intros H0 H1. unfold uint64, two64. apply Z.mod_small.
  unfold max_int64 in H1. lia.
Qed.

Lemma sub64_range (a b : Z) : is_uint64 (sub64 a b).
Proof.
  unfold is_uint64, sub64, two64. apply Z.mod_pos_bound. lia.
Qed.

Lemma sub64_self (a : Z) : sub64 a a = 0.
Proof. unfold sub64. rewrite Z.sub_diag. reflexivity. Qed.

Lemma sub64_zero (a : Z) : is_uint64 a -> sub64 a 0 = a.
Proof.
  intros H. unfold sub64. rewrite Z.sub_0_r. apply Z.mod_small. exact H.
Qed.

End IntFacts.

(** ** The actor loop *)

Section ActorFacts.

Import Int IdleTimer.

Lemma no_go_app (xs ys : list Effect) :
  no_go (xs ++ ys) = no_go xs && no_go ys.
Proof. unfold no_go. apply forallb_app. Qed.

Lemma sentTimedOut_app (xs ys : list Effect) :
  sentTimedOut (xs ++ ys) = sentTimedOut xs ++ sentTimedOut ys.
Proof.
  induction xs as [|e xs IH]; simpl; [reflexivity|].
  destruct e; simpl; rewrite IH; reflexivity.
Qed.

Lemma liveTickers_app (live : list nat) (xs ys : list Effect) :
  liveTickers live (xs ++ ys) = liveTickers (liveTickers live xs) ys.
Proof. unfold liveTickers. apply fold_left_app. Qed.

Lemma stopHeartbeat_unticked (a : Actor) :
  heartbeat a = None -> stopHeartbeat a = [].
Proof. unfold stopHeartbeat. intros ->. reflexivity. Qed.

(** One iteration on a timer without periodic check, for an event that is
    not an arming [SetIdleTimeout]: the loop goes on (or returns on stop),
    still without periodic check, starts no callback and creates no
    ticker; the fired flag, when down, stays down. *)
Lemma step_unticked (a : Actor) (ev : Event) :
  Unticked a -> arming ev = false ->
  match step a ev with
  | Continue a' es =>
      Unticked a' /\ no_go es = true /\ liveTickers [] es = [] /\
      sentTimedOut es = (if is_timedout_query ev then [timeOutRaised a] else [])
      /\ (timeOutRaised a = false -> timeOutRaised a' = false)
  | Return a' es => a' = a /\ es = [EffCloseDone]
  | Panic _ _ _ => False
  | NotReady => exists now, ev = EvHeartbeat now
  end.
Proof.
  intros [Hb Hc] Harm.
  destruct ev as [| |f| |tk now|now|now]; simpl in *.
  - unfold deferred. rewrite (stopHeartbeat_unticked a Hb). auto.
  - repeat split; auto.
  - repeat split; auto.
  - repeat split; auto.
  - rewrite (stopHeartbeat_unticked a Hb).
    destruct (0 <? dur a) eqn:Hd.
    + destruct (newdur tk =? dur a) eqn:He.
      * repeat split; auto.
      * destruct (newdur tk <=? 0) eqn:Hn.
        -- repeat split; auto.
        -- apply Z.leb_gt in Hn. apply Z.ltb_ge in Harm. lia.
    + destruct (newdur tk <=? 0) eqn:Hn.
      * repeat split; auto.
      * apply Z.leb_gt in Hn. apply Z.ltb_ge in Harm. lia.
  - rewrite Hc. eauto.
  - repeat split; auto.
Qed.

(** A run from a timer without periodic check over events none of which is
    an arming [SetIdleTimeout]: no callback is started, no ticker is
    created, the loop does not panic, and when the fired flag is down every
    answer on [t.TimedOut] is [false]. *)
Lemma run_unticked (evs : list Event) :
  forall a, Unticked a -> quiet evs = true ->
  no_go (snd (run a evs)) = true /\
  liveTickers [] (snd (run a evs)) = [] /\
  (forall m a', fst (run a evs) <> Panicked m a') /\
  (timeOutRaised a = false ->
   Forall (fun b => b = false) (sentTimedOut (snd (run a evs)))).
Proof.
  induction evs as [|ev evs IH]; intros a Hu Hq.
  - simpl. repeat split; auto. intros m a' H; discriminate H.
  - simpl in Hq. apply andb_true_iff in Hq. destruct Hq as [Hev Hq].
    apply negb_true_iff in Hev.
    pose proof (step_unticked a ev Hu Hev) as Hs.
    simpl. destruct (step a ev) as [a1 es|a1 es|m a1 es|] eqn:Est.
    + destruct Hs as (Hu1 & Hgo & Hlive & Hsent & Hflag).
      destruct (IH a1 Hu1 Hq) as (IHgo & IHlive & IHpanic & IHsent).
      simpl. repeat split.
      * rewrite no_go_app, Hgo, IHgo. reflexivity.
      * rewrite liveTickers_app, Hlive. exact IHlive.
      * exact IHpanic.
      * intros Hf. rewrite sentTimedOut_app, Hsent.
        apply Forall_app. split.
        -- destruct (is_timedout_query ev); constructor; auto.
        -- apply IHsent. apply Hflag. exact Hf.
    + destruct Hs as [-> ->]. simpl. repeat split; auto.
      intros m a' H; discriminate H.
    + contradiction.
    + apply IH; assumption.
Qed.

(** ** C1 *)

(** C1: on an armed timer with a registered callback [f], a periodic check
    at clock reading [now] leaves the loop's state as it is and does
    nothing when [NanosecSince] is at most [dur]; when [NanosecSince]
    exceeds [dur] it raises the fired flag, stops the ticker and sets the
    tick channel to nil, and starts [f] exactly once with [go] (the effects
    of the iteration are the ticker's stop and one [go f], and the loop
    goes on).  After that no tick can be picked, and no callback is started
    over any later events until a [SetIdleTimeout] with a positive
    duration. *)
Theorem heartbeat_check (a : Actor) (f : Callback) (now : Z) :
  Armed a -> is_int64 (dur a) -> timeoutCallback a = Some f ->
  (NanosecSince a now <= dur a ->
   step a (EvHeartbeat now) = Continue a [] /\ Armed a) /\
  (dur a < NanosecSince a now ->
   exists a' h,
     heartbeat a = Some h /\
     step a (EvHeartbeat now) = Continue a' [EffTickerStop (tk_id h); EffGo f] /\
     Fired a' /\ dur a' = dur a /\ last a' = last a /\
     timeoutCallback a' = Some f /\
     (forall now', step a' (EvHeartbeat now') = NotReady) /\
     (forall evs, quiet evs = true -> no_go (snd (run a' evs)) = true)).
Proof.
  intros HA Hi Hf.
  pose proof HA as (Hd & Hr & h & Hhb & Hch).
  assert (Hu : uint64 (dur a) = dur a).
  { apply uint64_of_nonneg; [lia | apply Hi]. }
  assert (Hz : (dur a =? 0) = false) by (apply Z.eqb_neq; lia).
  split.
  - intros Hle. split; [|exact HA].
    simpl. rewrite Hch, Hz, Hu.
    replace (dur a <? NanosecSince a now) with false
      by (symmetry; apply Z.ltb_ge; exact Hle).
    reflexivity.
  - intros Hlt.
    exists (mkActor (last a) (timeoutCallback a) true (dur a) None None
                    (nextTicker a)), h.
    split; [exact Hhb|].
    split.
    { simpl. rewrite Hch, Hz, Hu.
      replace (dur a <? NanosecSince a now) with true
        by (symmetry; apply Z.ltb_lt; exact Hlt).
      rewrite Hf. unfold stopHeartbeat. rewrite Hhb. reflexivity. }
    split; [repeat split; simpl; auto|].
    repeat split; simpl; auto.
    intros evs Hq.
    apply (run_unticked evs); [split; reflexivity | exact Hq].
Qed.

Lemma timer50_armed : Armed timer50.
Proof.
  unfold Armed, timer50. simpl. split; [lia|]. split; [reflexivity|].
  exists (mkTicker 0 50). split; reflexivity.
Defined.

Lemma timer50_int64 : is_int64 (dur timer50).
Proof. unfold is_int64, min_int64, max_int64, timer50. simpl. lia. Defined.

Lemma heartbeat_check_witness :
  Armed timer50 /\
  (NanosecSince timer50 40 <= dur timer50 ->
   step timer50 (EvHeartbeat 40) = Continue timer50 [] /\ Armed timer50) /\
  (dur timer50 < NanosecSince timer50 60 ->
   exists a' h,
     heartbeat timer50 = Some h /\
     step timer50 (EvHeartbeat 60)
       = Continue a' [EffTickerStop (tk_id h); EffGo 1%nat] /\
     Fired a' /\ dur a' = dur timer50 /\ last a' = last timer50 /\
     timeoutCallback a' = Some 1%nat /\
     (forall now', step a' (EvHeartbeat now') = NotReady) /\
     (forall evs, quiet evs = true -> no_go (snd (run a' evs)) = true)).
Proof.
  split; [exact timer50_armed|]. split.
  - exact (proj1 (heartbeat_check timer50 1%nat 40
                    timer50_armed timer50_int64 eq_refl)).
  - exact (proj2 (heartbeat_check timer50 1%nat 60
                    timer50_armed timer50_int64 eq_refl)).
Defined.

(** ** C2 *)

(** C2: the code at a fired timer.  The timer built with 50ns fires at the
    check at 60ns; [SetIdleTimeout(80)] at 70ns then stops nothing (the
    ticker is already stopped), creates a new ticker of period 80, stores
    70 in [last] and acknowledges, and the next read of [t.TimedOut] still
    receives [true]: the branch that changes an active duration does not
    clear [timeOutRaised]. *)
Theorem rearm_fired_keeps_flag :
  run timer50 [EvHeartbeat 60; EvSetIdleTimeout (mkTicket 80 0%nat) 70;
               EvTimedOut]
  = (Running (mkActor 70 (Some 1%nat) true 80
                      (Some (mkTicker 1 80)) (Some (mkTicker 1 80)) 2),
     [EffTickerStop 0; EffGo 1%nat;
      EffNewTicker 1 80; EffStoreLast 70; EffCloseTicket 0%nat;
      EffSendTimedOut true]).
Proof. reflexivity. Qed.

(** The same on every fired timer: after a [SetIdleTimeout] with a positive
    duration other than the current one the periodic check runs again at
    the new period and [last] is the clock reading, but the fired flag is
    still up. *)
Lemma rearm_fired_general (a : Actor) (tk : setTimeoutTicket) (now : Z) :
  Fired a -> 0 < newdur tk -> newdur tk <> dur a ->
  exists a',
    step a (EvSetIdleTimeout tk now)
      = Continue a' [EffNewTicker (nextTicker a) (newdur tk);
                     EffStoreLast now; EffCloseTicket (done tk)] /\
    timeOutRaised a' = true /\ dur a' = newdur tk /\ last a' = now /\
    heartch a' = Some (mkTicker (nextTicker a) (newdur tk)) /\
    step a' EvTimedOut = Continue a' [EffSendTimedOut true].
Proof.
  intros (Hd & Hr & Hhb & Hch) Hn Hne.
  exists (arm a (newdur tk) (timeOutRaised a) now).
  simpl.
  replace (0 <? dur a) with true by (symmetry; apply Z.ltb_lt; exact Hd).
  replace (newdur tk =? dur a) with false
    by (symmetry; apply Z.eqb_neq; exact Hne).
  replace (newdur tk <=? 0) with false by (symmetry; apply Z.leb_gt; exact Hn).
  rewrite (stopHeartbeat_unticked a Hhb), Hr. simpl. repeat split.
Qed.

(** ** C3 *)

(** C3: on an active timer ([dur > 0]) a [SetIdleTimeout] with the current
    duration closes the ticket and nothing else: the loop's state is the
    same ([last], the fired flag, the ticker and the tick channel included)
    and the closing of [tk.done] is the only effect, whatever the clock
    reads. *)
Theorem set_same_duration_noop (a : Actor) (tk : setTimeoutTicket) (now : Z) :
  0 < dur a -> newdur tk = dur a ->
  step a (EvSetIdleTimeout tk now) = Continue a [EffCloseTicket (done tk)].
Proof.
  intros Hd He. simpl.
  replace (0 <? dur a) with true by (symmetry; apply Z.ltb_lt; exact Hd).
  replace (newdur tk =? dur a) with true
    by (symmetry; apply Z.eqb_eq; exact He).
  reflexivity.
Qed.

Lemma set_same_duration_noop_witness :
  step timer50 (EvSetIdleTimeout (mkTicket 50 3%nat) 40)
  = Continue timer50 [EffCloseTicket 3%nat].
Proof.
  apply (set_same_duration_noop timer50 (mkTicket 50 3%nat) 40).
  - unfold timer50. simpl. lia.
  - reflexivity.
Defined.

(** ** C4 *)



(** ** C5 *)

(** C5: the code after a [SetIdleTimeout] with a negative duration on an
    active timer.  The loop stops the ticker and keeps [tk.newdur] as
    [dur]; the timer is disabled, and the next [GetIdleTimeout] receives
    -1, not 0. *)
Theorem get_after_negative_set :
  let r := run timer50 [EvSetIdleTimeout (mkTicket (-1) 0%nat) 10;
                        EvGetIdleTimeout] in
  fst r = Running (mkActor 0 (Some 1%nat) false (-1) None None 1) /\
  snd r = [EffTickerStop 0; EffCloseTicket 0%nat; EffSendDur (-1)] /\
  GetIdleTimeout (hd_error (sentDur (snd r))) = -1.
Proof. repeat split. Qed.

(** A timer built with a negative duration is disabled as well and reports
    that duration. *)
Lemma get_after_negative_new :
  run (fst (newIdleTimer None (-1))) [EvGetIdleTimeout]
  = (Running (mkActor 0 None false (-1) None None 0), [EffSendDur (-1)]).
Proof. reflexivity. Qed.

(** The sibling branch: on an inactive timer a [SetIdleTimeout] with
    [newdur <= 0] stores 0, so [GetIdleTimeout] then receives 0. *)
Lemma get_after_inactive_set (a : Actor) (tk : setTimeoutTicket) (now : Z) :
  dur a <= 0 -> newdur tk <= 0 ->
  exists a',
    step a (EvSetIdleTimeout tk now) = Continue a' [EffCloseTicket (done tk)]
    /\ step a' EvGetIdleTimeout = Continue a' [EffSendDur 0].
Proof.
  intros Hd Hn.
  exists (mkActor (last a) (timeoutCallback a) (timeOutRaised a) 0
                  (heartbeat a) (heartch a) (nextTicker a)).
  simpl.
  replace (0 <? dur a) with false by (symmetry; apply Z.ltb_ge; exact Hd).
  replace (newdur tk <=? 0) with true by (symmetry; apply Z.leb_le; exact Hn).
  split; reflexivity.
Qed.

(** ** C8 *)

(** C8: a tick picked while [dur] is 0 panics; and on an active timer a
    tick that finds [NanosecSince] above [dur] while [timeoutCallback] is
    nil panics (after raising the flag and stopping the ticker).  In both
    cases the run of the loop ends there: no later event is served. *)
Theorem heartbeat_invariant_panics (a : Actor) (h : Ticker) (now : Z) :
  heartch a = Some h ->
  (dur a = 0 ->
   step a (EvHeartbeat now) = Panic panic_dur0 a (deferred a) /\
   forall evs, fst (run a (EvHeartbeat now :: evs)) = Panicked panic_dur0 a) /\
  (0 < dur a -> is_int64 (dur a) -> dur a < NanosecSince a now ->
   timeoutCallback a = None ->
   exists a',
     step a (EvHeartbeat now)
       = Panic panic_nocallback a' (stopHeartbeat a ++ [EffCloseDone]) /\
     timeOutRaised a' = true /\
     forall evs,
       fst (run a (EvHeartbeat now :: evs)) = Panicked panic_nocallback a').
Proof.
  intros Hch. split.
  - intros Hz.
    assert (E : step a (EvHeartbeat now) = Panic panic_dur0 a (deferred a)).
    { simpl. rewrite Hch, Hz. reflexivity. }
    split; [exact E|]. intros evs.
    change (run a (EvHeartbeat now :: evs))
      with (match step a (EvHeartbeat now) with
            | Continue a' es =>
                let r := run a' evs in (fst r, es ++ snd r)
            | Return a' es => (Returned a', es)
            | Panic m a' es => (Panicked m a', es)
            | NotReady => run a evs
            end).
    rewrite E. reflexivity.
  - intros Hd Hi Hlt Hcb.
    exists (mkActor (last a) (timeoutCallback a) true (dur a) None None
                    (nextTicker a)).
    assert (E : step a (EvHeartbeat now)
                = Panic panic_nocallback
                    (mkActor (last a) (timeoutCallback a) true (dur a)
                             None None (nextTicker a))
                    (stopHeartbeat a ++ [EffCloseDone])).
    { simpl. rewrite Hch.
      replace (dur a =? 0) with false by (symmetry; apply Z.eqb_neq; lia).
      rewrite (uint64_of_nonneg (dur a)); [| lia | apply Hi].
      replace (dur a <? NanosecSince a now) with true
        by (symmetry; apply Z.ltb_lt; exact Hlt).
      rewrite Hcb. reflexivity. }
    split; [exact E|]. split; [reflexivity|]. intros evs.
    change (run a (EvHeartbeat now :: evs))
      with (match step a (EvHeartbeat now) with
            | Continue a' es =>
                let r := run a' evs in (fst r, es ++ snd r)
            | Return a' es => (Returned a', es)
            | Panic m a' es => (Panicked m a', es)
            | NotReady => run a evs
            end).
    rewrite E. reflexivity.
Qed.

Lemma heartbeat_invariant_panics_witness :
  (step ticking_dur0 (EvHeartbeat 60)
     = Panic panic_dur0 ticking_dur0 (deferred ticking_dur0) /\
   forall evs, fst (run ticking_dur0 (EvHeartbeat 60 :: evs))
               = Panicked panic_dur0 ticking_dur0) /\
  (exists a',
     step timer50_nocb (EvHeartbeat 60)
       = Panic panic_nocallback a'
               (stopHeartbeat timer50_nocb ++ [EffCloseDone]) /\
     timeOutRaised a' = true /\
     forall evs, fst (run timer50_nocb (EvHeartbeat 60 :: evs))
                 = Panicked panic_nocallback a').
Proof.
  split.
  - apply (proj1 (heartbeat_invariant_panics ticking_dur0 (mkTicker 0 50) 60
                    eq_refl)).
    reflexivity.
  - apply (proj2 (heartbeat_invariant_panics timer50_nocb (mkTicker 0 50) 60
                    eq_refl)).
    + unfold timer50_nocb. simpl. lia.
    + unfold is_int64, min_int64, max_int64, timer50_nocb. simpl. lia.
    + vm_compute. reflexivity.
    + reflexivity.
Defined.

(** ** C9 *)

(** C9: [newIdleTimer] with [dur > 0] creates the ticker and stores nothing
    in [last], which stays 0; [NanosecSince] at the first check is then the
    clock reading itself, so that check fires exactly when the reading
    exceeds [dur].  A [SetIdleTimeout] that starts a ticker (a positive
    duration other than the current one) stores the clock reading in
    [last] before it closes the ticket, and [NanosecSince] at that reading
    is 0. *)
Theorem constructor_never_stamps
  (cb : option Callback) (d now : Z) :
  0 < d -> is_int64 d -> is_uint64 now ->
  let a0 := fst (newIdleTimer cb d) in
  snd (newIdleTimer cb d) = [EffNewTicker 0 d] /\
  heartbeat a0 = Some (mkTicker 0 d) /\ heartch a0 = Some (mkTicker 0 d) /\
  last a0 = 0 /\ NanosecSince a0 now = now /\
  (now <= d -> step a0 (EvHeartbeat now) = Continue a0 []) /\
  (d < now -> forall f, cb = Some f ->
     step a0 (EvHeartbeat now)
       = Continue (mkActor 0 cb true d None None 1)
                  [EffTickerStop 0; EffGo f]) /\
  (forall a tk now',
     0 < newdur tk -> newdur tk <> dur a ->
     exists a' pre,
       step a (EvSetIdleTimeout tk now')
         = Continue a' (pre ++ [EffNewTicker (nextTicker a) (newdur tk);
                                EffStoreLast now';
                                EffCloseTicket (done tk)]) /\
       forallb (fun e => negb (is_store_last e)) pre = true /\
       last a' = now' /\ NanosecSince a' now' = 0).
Proof.
  intros Hd Hi Hnow a0.
  assert (Ha0 : a0 = mkActor 0 cb false d
                             (Some (mkTicker 0 d)) (Some (mkTicker 0 d)) 1).
  { unfold a0, newIdleTimer.
    replace (0 <? d) with true by (symmetry; apply Z.ltb_lt; exact Hd).
    reflexivity. }
  assert (Hns : NanosecSince a0 now = now).
  { rewrite Ha0. unfold NanosecSince. simpl. apply sub64_zero. exact Hnow. }
  assert (Hu : uint64 d = d) by (apply uint64_of_nonneg; [lia | apply Hi]).
  split.
  { unfold newIdleTimer.
    replace (0 <? d) with true by (symmetry; apply Z.ltb_lt; exact Hd).
    reflexivity. }
  split; [rewrite Ha0; reflexivity|].
  split; [rewrite Ha0; reflexivity|].
  split; [rewrite Ha0; reflexivity|].
  split; [exact Hns|].
  split.
  { intros Hle. unfold step. rewrite Hns. rewrite Ha0. simpl.
    replace (d =? 0) with false by (symmetry; apply Z.eqb_neq; lia).
    rewrite Hu.
    replace (d <? now) with false by (symmetry; apply Z.ltb_ge; exact Hle).
    reflexivity. }
  split.
  { intros Hlt f Hf. unfold step. rewrite Hns. rewrite Ha0. simpl.
    replace (d =? 0) with false by (symmetry; apply Z.eqb_neq; lia).
    rewrite Hu.
    replace (d <? now) with true by (symmetry; apply Z.ltb_lt; exact Hlt).
    rewrite Hf. reflexivity. }
  intros a tk now' Hn Hne.
  simpl.
  replace (newdur tk =? dur a) with false
    by (symmetry; apply Z.eqb_neq; exact Hne).
  replace (newdur tk <=? 0) with false by (symmetry; apply Z.leb_gt; exact Hn).
  destruct (0 <? dur a).
  - exists (arm a (newdur tk) (timeOutRaised a) now'), (stopHeartbeat a).
    split; [reflexivity|]. split.
    + unfold stopHeartbeat. destruct (heartbeat a); reflexivity.
    + split; [reflexivity|]. unfold NanosecSince. simpl. apply sub64_self.
  - exists (arm a (newdur tk) false now'), [].
    split; [reflexivity|]. split; [reflexivity|].
    split; [reflexivity|]. unfold NanosecSince. simpl. apply sub64_self.
Qed.

Lemma constructor_never_stamps_witness :
  let a0 := fst (newIdleTimer (Some 1%nat) 50) in
  snd (newIdleTimer (Some 1%nat) 50) = [EffNewTicker 0 50] /\
  heartbeat a0 = Some (mkTicker 0 50) /\ heartch a0 = Some (mkTicker 0 50) /\
  last a0 = 0 /\ NanosecSince a0 60 = 60 /\
  (60 <= 50 -> step a0 (EvHeartbeat 60) = Continue a0 []) /\
  (50 < 60 -> forall f, Some 1%nat = Some f ->
     step a0 (EvHeartbeat 60)
       = Continue (mkActor 0 (Some 1%nat) true 50 None None 1)
                  [EffTickerStop 0; EffGo f]) /\
  (forall a tk now',
     0 < newdur tk -> newdur tk <> dur a ->
     exists a' pre,
       step a (EvSetIdleTimeout tk now')
         = Continue a' (pre ++ [EffNewTicker (nextTicker a) (newdur tk);
                                EffStoreLast now';
                                EffCloseTicket (done tk)]) /\
       forallb (fun e => negb (is_store_last e)) pre = true /\
       last a' = now' /\ NanosecSince a' now' = 0).
Proof.
  apply (constructor_never_stamps (Some 1%nat) 50 60).
  - lia.
  - unfold is_int64, min_int64, max_int64. simpl. lia.
  - unfold is_uint64, two64. simpl. lia.
Defined.

(** ** C7 *)

Lemma remove_held (id : nat) : remove Nat.eq_dec id [id] = [].
Proof. simpl. destruct (Nat.eq_dec id id); [reflexivity | contradiction]. Qed.

Lemma stopHeartbeat_live (a : Actor) :
  liveTickers (held a) (stopHeartbeat a) = [] /\
  no_close_done (stopHeartbeat a) = true.
Proof.
  unfold held, stopHeartbeat. destruct (heartbeat a) as [h|].
  - unfold liveTickers. cbn [fold_left ticker_effect].
    rewrite remove_held. auto.
  - auto.
Qed.

Lemma deferred_ends_cleanly (a : Actor) : ends_cleanly (held a) (deferred a).
Proof.
  exists (stopHeartbeat a). unfold deferred.
  destruct (stopHeartbeat_live a) as [Hl Hn]. auto.
Qed.

(** One iteration keeps the running tickers equal to the one the loop
    holds and does not close [t.halt.Done] unless the loop ends; when it
    ends, by return or by panic, it ends cleanly. *)
Lemma step_tickers (a : Actor) (ev : Event) :
  coherent a ->
  match step a ev with
  | Continue a' es =>
      coherent a' /\
      liveTickers (held a) es = held a' /\ no_close_done es = true
  | Return _ es => ends_cleanly (held a) es
  | Panic _ _ es => ends_cleanly (held a) es
  | NotReady => True
  end.
Proof.
  intros Hco.
  destruct (stopHeartbeat_live a) as [Hl Hn].
  destruct ev as [| |f| |tk now|now|now]; simpl.
  - apply deferred_ends_cleanly.
  - auto.
  - auto.
  - auto.
  - destruct (0 <? dur a) eqn:Hd.
    + destruct (newdur tk =? dur a); [auto|].
      destruct (newdur tk <=? 0) eqn:Hnd.
      * rewrite liveTickers_app, Hl. unfold no_close_done in *.
        rewrite forallb_app, Hn. repeat split; auto. left; reflexivity.
      * rewrite liveTickers_app, Hl. unfold no_close_done in *.
        rewrite forallb_app, Hn. repeat split; auto.
        right. simpl. apply Z.leb_gt in Hnd. exact Hnd.
    + apply Z.ltb_ge in Hd.
      assert (Hb : heartbeat a = None) by (destruct Hco; [assumption | lia]).
      assert (Hh : held a = []) by (unfold held; rewrite Hb; reflexivity).
      destruct (newdur tk <=? 0) eqn:Hnd.
      * repeat split; auto. left. simpl. exact Hb.
      * rewrite Hh. repeat split; auto.
        right. simpl. apply Z.leb_gt in Hnd. exact Hnd.
  - destruct (heartch a); [|exact I].
    destruct (dur a =? 0); [apply deferred_ends_cleanly|].
    destruct (uint64 (dur a) <? NanosecSince a now); [|auto].
    destruct (timeoutCallback a) as [f|].
    + rewrite liveTickers_app, Hl. unfold no_close_done in *.
      rewrite forallb_app, Hn. repeat split; auto. left; reflexivity.
    + exists (stopHeartbeat a). auto.
  - auto.
Qed.



Lemma newIdleTimer_coherent (cb : option Callback) (d : Z) :
  coherent (fst (newIdleTimer cb d)).
Proof.
  unfold newIdleTimer, coherent. destruct (0 <? d) eqn:Hd; simpl.
  - right. apply Z.ltb_lt. exact Hd.
  - left. reflexivity.
Qed.


Lemma newIdleTimer_held (cb : option Callback) (d : Z) :
  liveTickers [] (snd (newIdleTimer cb d)) = held (fst (newIdleTimer cb d)).
Proof. unfold newIdleTimer. destruct (0 <? d); reflexivity. Qed.

(** [Stop] always has an outcome. *)
Lemma Stop_total (doneAt : option Z) :
  exists r, Stop doneAt [EffCloseReqStop] r.
Proof.
  destruct doneAt as [t|].
  - destruct (Z_le_gt_dec t stopGrace) as [Hle|Hgt].
    + exists StopReturned. split; [reflexivity|].
      apply (sel_done _ t); [reflexivity | exact Hle].
    + exists (StopPanicked panic_stop). split; [reflexivity|].
      apply sel_after. intros t' E. injection E as <-. lia.
  - exists (StopPanicked panic_stop). split; [reflexivity|].
    apply sel_after. intros t' E. discriminate E.
Qed.




End ActorFacts.

(** ** The key loaders *)

Section LoaderFacts.

Import RSA.
Local Open Scope string_scope.










End LoaderFacts.

(** * Further properties of the idle timer *)

Section ClockFacts.

Import Int IdleTimer.

(** [NanosecSince] after a [Reset]: for a clock reading [t1] not earlier
    than the stamp [t0] it is [t1 - t0]; for an earlier reading the
    unsigned subtraction wraps around to [t1 - t0 + 2^64].  It is a
    [uint64] in both cases. *)
Theorem nanosec_since_reset (a : Actor) (t0 t1 : Z) :
  is_uint64 t0 -> is_uint64 t1 ->
  is_uint64 (NanosecSince (Reset a t0) t1) /\
  (t0 <= t1 -> NanosecSince (Reset a t0) t1 = t1 - t0) /\
  (t1 < t0 -> NanosecSince (Reset a t0) t1 = t1 - t0 + two64).
Proof.
  intros [H0 H0'] [H1 H1']. unfold NanosecSince. simpl.
  split; [apply sub64_range|]. split; intros H; unfold sub64.
  - apply Z.mod_small. lia.
  - symmetry. apply (Z.mod_unique _ _ (-1)); lia.
Qed.

Lemma nanosec_since_reset_witness :
  is_uint64 (NanosecSince (Reset timer50 100) 130) /\
  (100 <= 130 -> NanosecSince (Reset timer50 100) 130 = 130 - 100) /\
  (130 < 100 -> NanosecSince (Reset timer50 100) 130 = 130 - 100 + two64).
Proof.
  apply (nanosec_since_reset timer50 100 130);
    unfold is_uint64, two64; simpl; lia.
Defined.



End ClockFacts.

Section ReachableFacts.

Import Int IdleTimer.

(** The two shapes of a wired state: a fresh ticker at a positive
    duration, and no ticker with the flag down or the duration positive. *)
Ltac wired_ticking :=
  unfold wired; simpl;
  split; [reflexivity|];
  split; [intros ? Hsome; injection Hsome as <-; simpl;
          split; [lia | reflexivity]
         | intros; first [lia | reflexivity | assumption]].

Ltac wired_idle :=
  unfold wired; simpl;
  split; [reflexivity|];
  split; [intros ? Hsome; discriminate Hsome
         | intros; first [lia | reflexivity | assumption]].

Lemma newIdleTimer_wired (cb : option Callback) (d : Z) :
  wired (fst (newIdleTimer cb d)).
Proof.
  unfold newIdleTimer. destruct (0 <? d) eqn:Hd.
  - apply Z.ltb_lt in Hd. wired_ticking.
  - wired_idle.
Qed.

(** One iteration keeps the locals wired; it panics only on a stale check
    with a nil callback; and it changes the callback only on the
    [setCallback] case. *)
Lemma step_wired (a : Actor) (ev : Event) :
  wired a ->
  match step a ev with
  | Continue a' _ =>
      wired a' /\
      (timeoutCallback a' = timeoutCallback a \/
       ev = EvSetCallback (timeoutCallback a'))
  | Panic m a' _ =>
      m = panic_nocallback /\ timeoutCallback a' = None /\
      timeoutCallback a = None
  | Return _ _ => True
  | NotReady => True
  end.
Proof.
  intros Hw. pose proof Hw as (Hch & Hhb & Hfl).
  destruct ev as [| |f| |tk now|now|now]; simpl.
  - exact I.
  - split; [exact Hw | left; reflexivity].
  - split; [exact Hw | right; reflexivity].
  - split; [exact Hw | left; reflexivity].
  - destruct (0 <? dur a) eqn:Hd.
    + apply Z.ltb_lt in Hd.
      destruct (newdur tk =? dur a) eqn:He.
      { split; [exact Hw | left; reflexivity]. }
      destruct (newdur tk <=? 0) eqn:Hn.
      * split; [wired_idle | left; reflexivity].
      * apply Z.leb_gt in Hn. split; [wired_ticking | left; reflexivity].
    + apply Z.ltb_ge in Hd.
      destruct (newdur tk <=? 0) eqn:Hn.
      * split; [|left; reflexivity].
        unfold wired. simpl. split; [exact Hch|]. split.
        -- intros h Hh. destruct (Hhb h Hh) as [Hpos _]. lia.
        -- intros _. apply Hfl. exact Hd.
      * apply Z.leb_gt in Hn. split; [wired_ticking | left; reflexivity].
  - rewrite Hch.
    destruct (heartbeat a) as [h|] eqn:Eh; [|exact I].
    destruct (Hhb h eq_refl) as [Hpos Hper].
    replace (dur a =? 0) with false by (symmetry; apply Z.eqb_neq; lia).
    destruct (uint64 (dur a) <? NanosecSince a now).
    + destruct (timeoutCallback a) as [f|] eqn:Ecb.
      * split; [wired_idle | left; reflexivity].
      * repeat split; reflexivity.
    + split; [exact Hw | left; reflexivity].
  - split; [exact Hw | left; reflexivity].
Qed.

Lemma run_wired (evs : list Event) :
  forall a, wired a ->
  match fst (run a evs) with
  | Running a' => wired a'
  | Returned _ => True
  | Panicked m a' =>
      m = panic_nocallback /\ timeoutCallback a' = None /\
      (timeoutCallback a = None \/ In (EvSetCallback None) evs)
  end.
Proof.
  induction evs as [|ev evs IH]; intros a Hw.
  - exact Hw.
  - pose proof (step_wired a ev Hw) as Hs. simpl.
    destruct (step a ev) as [a1 es|a1 es|m a1 es|].
    + destruct Hs as [Hw1 Hcb]. specialize (IH a1 Hw1). simpl.
      destruct (fst (run a1 evs)) as [a2|a2|m a2]; auto.
      destruct IH as (Hm & Hnil & Hsrc). split; [exact Hm|].
      split; [exact Hnil|].
      destruct Hsrc as [Hnone|Hin]; [|right; right; exact Hin].
      destruct Hcb as [Hsame|Hset].
      * left. rewrite <- Hsame. exact Hnone.
      * right. left. rewrite Hset, Hnone. reflexivity.
    + exact I.
    + destruct Hs as (Hm & Hnil & Hnone). simpl.
      split; [exact Hm|]. split; [exact Hnil|]. left. exact Hnone.
    + specialize (IH a Hw).
      destruct (fst (run a evs)) as [a2|a2|m a2]; auto.
      destruct IH as (Hm & Hnil & [Hnone|Hin]).
      * split; [exact Hm|]. split; [exact Hnil|]. left. exact Hnone.
      * split; [exact Hm|]. split; [exact Hnil|]. right. right. exact Hin.
Qed.

(** In every state the loop reaches from [newIdleTimer] the locals are
    wired.  So a disabled timer ([dur <= 0]) answers [false] on
    [t.TimedOut] and has no tick to pick. *)
Theorem reachable_wired
  (cb : option Callback) (d : Z) (evs : list Event) (a' : Actor) :
  fst (run (fst (newIdleTimer cb d)) evs) = Running a' ->
  wired a' /\
  (dur a' <= 0 ->
   step a' EvTimedOut = Continue a' [EffSendTimedOut false] /\
   forall now, step a' (EvHeartbeat now) = NotReady).
Proof.
  intros Hrun.
  pose proof (run_wired evs _ (newIdleTimer_wired cb d)) as Hw.
  rewrite Hrun in Hw. split; [exact Hw|].
  destruct Hw as (Hch & Hhb & Hfl). intros Hd. split.
  - simpl. rewrite (Hfl Hd). reflexivity.
  - intros now. simpl. rewrite Hch.
    destruct (heartbeat a') as [h|] eqn:Eh; [|reflexivity].
    destruct (Hhb h eq_refl) as [Hpos _]. lia.
Qed.

Lemma reachable_wired_witness :
  let a' := mkActor 70 (Some 1%nat) false 0 None None 2 in
  wired a' /\
  (dur a' <= 0 ->
   step a' EvTimedOut = Continue a' [EffSendTimedOut false] /\
   forall now, step a' (EvHeartbeat now) = NotReady).
Proof.
  apply (reachable_wired (Some 1%nat) 50
           [EvHeartbeat 60; EvSetIdleTimeout (mkTicket 80 0%nat) 70;
            EvSetIdleTimeout (mkTicket 0 1%nat) 75]).
  reflexivity.
Defined.

(** The loop started by [newIdleTimer] never panics on [dur == 0]: the
    only panic of a run is the one of a stale check that finds no
    callback, and it needs the callback to have been nil at construction
    or set to nil since. *)
Theorem panic_only_without_callback
  (cb : option Callback) (d : Z) (evs : list Event)
  (m : string) (a' : Actor) :
  fst (run (fst (newIdleTimer cb d)) evs) = Panicked m a' ->
  m = panic_nocallback /\ timeoutCallback a' = None /\
  (cb = None \/ In (EvSetCallback None) evs).
Proof.
  intros Hrun.
  pose proof (run_wired evs _ (newIdleTimer_wired cb d)) as Hw.
  rewrite Hrun in Hw. destruct Hw as (Hm & Hnil & Hsrc).
  split; [exact Hm|]. split; [exact Hnil|].
  destruct Hsrc as [Hnone|Hin]; [left|right; exact Hin].
  unfold newIdleTimer in Hnone. destruct (0 <? d); exact Hnone.
Qed.

Lemma panic_only_without_callback_witness :
  panic_nocallback = panic_nocallback /\
  timeoutCallback (mkActor 0 None true 50 None None 1) = None /\
  (Some 1%nat = None \/
   In (EvSetCallback None) [EvSetCallback None; EvHeartbeat 60]).
Proof.
  apply (panic_only_without_callback (Some 1%nat) 50
           [EvSetCallback None; EvHeartbeat 60]).
  reflexivity.
Defined.

End ReachableFacts.

Section EffectFacts.

Import Int IdleTimer.

Lemma started_app (xs ys : list Effect) :
  started (xs ++ ys) = started xs ++ started ys.
Proof.
  induction xs as [|e xs IH]; simpl; [reflexivity|].
  destruct e; simpl; rewrite IH; reflexivity.
Qed.

Lemma closedTickets_app (xs ys : list Effect) :
  closedTickets (xs ++ ys) = closedTickets xs ++ closedTickets ys.
Proof.
  induction xs as [|e xs IH]; simpl; [reflexivity|].
  destruct e; simpl; rewrite IH; reflexivity.
Qed.

Lemma stopHeartbeat_silent (a : Actor) :
  started (stopHeartbeat a) = [] /\ closedTickets (stopHeartbeat a) = [] /\
  forallb positive_ticker (stopHeartbeat a) = true.
Proof. unfold stopHeartbeat. destruct (heartbeat a); simpl; auto. Qed.

(** What one iteration starts, closes and creates: it starts at most the
    callback it holds, it closes the ticket of a [SetIdleTimeout] request
    and no other, and a ticker it creates has a positive period. *)
Lemma step_effects (a : Actor) (ev : Event) :
  forall es,
    (exists a', step a ev = Continue a' es) \/
    (exists a', step a ev = Return a' es) \/
    (exists m a', step a ev = Panic m a' es) ->
    (forall f, In f (started es) -> timeoutCallback a = Some f) /\
    closedTickets es = ticketsOf [ev] /\
    forallb positive_ticker es = true.
Proof.
  intros es Hstep.
  destruct (stopHeartbeat_silent a) as (Hs & Hc & Hp).
  assert (Hone : forall tk now,
             ticketsOf [EvSetIdleTimeout tk now] = [done tk])
    by reflexivity.
  destruct ev as [| |f| |tk now|now|now]; simpl in Hstep.
  - destruct Hstep as [[a' H]|[[a' H]|[m [a' H]]]]; try discriminate H.
    injection H as _ <-. unfold deferred.
    rewrite started_app, closedTickets_app, forallb_app, Hs, Hc, Hp.
    simpl. repeat split; auto. intros f [].
  - destruct Hstep as [[a' H]|[[a' H]|[m [a' H]]]]; try discriminate H.
    injection H as _ <-. simpl. repeat split; auto. intros f0 [].
  - destruct Hstep as [[a' H]|[[a' H]|[m [a' H]]]]; try discriminate H.
    injection H as _ <-. simpl. repeat split; auto. intros f0 [].
  - destruct Hstep as [[a' H]|[[a' H]|[m [a' H]]]]; try discriminate H.
    injection H as _ <-. simpl. repeat split; auto. intros f0 [].
  - rewrite Hone.
    destruct (0 <? dur a);
      [destruct (newdur tk =? dur a)|];
      try destruct (newdur tk <=? 0) eqn:Hn;
      destruct Hstep as [[a' H]|[[a' H]|[m [a' H]]]]; try discriminate H;
      injection H as _ <-;
      rewrite ?started_app, ?closedTickets_app, ?forallb_app, ?Hs, ?Hc, ?Hp;
      simpl; rewrite ?Hn; repeat split; auto;
      try (intros f0 []);
      apply Z.leb_gt in Hn; rewrite andb_true_r; apply Z.ltb_lt; exact Hn.
  - destruct (heartch a); [|
      destruct Hstep as [[a' H]|[[a' H]|[m [a' H]]]]; discriminate H].
    destruct (dur a =? 0).
    { destruct Hstep as [[a' H]|[[a' H]|[m [a' H]]]]; try discriminate H.
      injection H as _ _ <-. unfold deferred.
      rewrite started_app, closedTickets_app, forallb_app, Hs, Hc, Hp.
      simpl. repeat split; auto. intros f0 []. }
    destruct (uint64 (dur a) <? NanosecSince a now).
    + destruct (timeoutCallback a) as [f|].
      * destruct Hstep as [[a' H]|[[a' H]|[m [a' H]]]]; try discriminate H.
        injection H as _ <-.
        rewrite started_app, closedTickets_app, forallb_app, Hs, Hc, Hp.
        simpl. repeat split; auto.
        intros f0 [<-|[]]. reflexivity.
      * destruct Hstep as [[a' H]|[[a' H]|[m [a' H]]]]; try discriminate H.
        injection H as _ _ <-. unfold deferred. simpl.
        rewrite started_app, closedTickets_app, forallb_app, Hs, Hc, Hp.
        simpl. repeat split; auto. intros f0 [].
    + destruct Hstep as [[a' H]|[[a' H]|[m [a' H]]]]; try discriminate H.
      injection H as _ <-. simpl. repeat split; auto. intros f0 [].
  - destruct Hstep as [[a' H]|[[a' H]|[m [a' H]]]]; try discriminate H.
    injection H as _ <-. simpl. repeat split; auto. intros f0 [].
Qed.

Lemma step_callback (a : Actor) (ev : Event) (a' : Actor) (es : list Effect) :
  step a ev = Continue a' es ->
  timeoutCallback a' = timeoutCallback a \/
  ev = EvSetCallback (timeoutCallback a').
Proof.
  destruct ev as [| |f| |tk now|now|now]; simpl; intros H.
  - discriminate H.
  - injection H as <- _. left; reflexivity.
  - injection H as <- _. right; reflexivity.
  - injection H as <- _. left; reflexivity.
  - destruct (0 <? dur a);
      [destruct (newdur tk =? dur a)|];
      try destruct (newdur tk <=? 0);
      injection H as <- _; left; reflexivity.
  - destruct (heartch a); [|discriminate H].
    destruct (dur a =? 0); [discriminate H|].
    destruct (uint64 (dur a) <? NanosecSince a now).
    + destruct (timeoutCallback a) eqn:E; [|discriminate H].
      injection H as <- _. left. simpl. congruence.
    + injection H as <- _. left; reflexivity.
  - injection H as <- _. left; reflexivity.
Qed.

Lemma run_started (evs : list Event) :
  forall a f,
    In f (started (snd (run a evs))) ->
    timeoutCallback a = Some f \/ In (EvSetCallback (Some f)) evs.
Proof.
  induction evs as [|ev evs IH]; intros a f Hin.
  - destruct Hin.
  - simpl in Hin.
    destruct (step a ev) as [a1 es|a1 es|m a1 es|] eqn:Est.
    + simpl in Hin. rewrite started_app in Hin.
      apply in_app_or in Hin. destruct Hin as [Hin|Hin].
      * left.
        apply (proj1 (step_effects a ev es (or_introl (ex_intro _ a1 Est)))).
        exact Hin.
      * destruct (IH a1 f Hin) as [Hcb|Hev]; [|right; right; exact Hev].
        destruct (step_callback a ev a1 es Est) as [Hsame|Hset].
        -- left. rewrite <- Hsame. exact Hcb.
        -- right. left. rewrite Hset, Hcb. reflexivity.
    + left. simpl in Hin.
      apply (proj1 (step_effects a ev es
                      (or_intror (or_introl (ex_intro _ a1 Est))))).
      exact Hin.
    + left. simpl in Hin.
      apply (proj1 (step_effects a ev es
                      (or_intror (or_intror
                         (ex_intro _ m (ex_intro _ a1 Est)))))).
      exact Hin.
    + destruct (IH a f Hin) as [Hcb|Hev]; [left|right; right]; assumption.
Qed.

(** The loop starts only callbacks it was given: one started in a run from
    [newIdleTimer] is the callback of the construction or one sent by
    [setTimeoutCallback]. *)
Theorem started_were_registered
  (cb : option Callback) (d : Z) (evs : list Event) (f : Callback) :
  In f (started (snd (run (fst (newIdleTimer cb d)) evs))) ->
  cb = Some f \/ In (EvSetCallback (Some f)) evs.
Proof.
  intros Hin. destruct (run_started evs _ f Hin) as [Hcb|Hev].
  - left. unfold newIdleTimer in Hcb. destruct (0 <? d); exact Hcb.
  - right. exact Hev.
Qed.

Lemma started_were_registered_witness :
  Some 1%nat = Some 2%nat \/
  In (EvSetCallback (Some 2%nat))
     [EvSetCallback (Some 2%nat); EvHeartbeat 60].
Proof.
  apply (started_were_registered (Some 1%nat) 50
           [EvSetCallback (Some 2%nat); EvHeartbeat 60] 2%nat).
  simpl. left. reflexivity.
Defined.

(** Every [SetIdleTimeout] request the loop serves is acknowledged: the
    tickets closed in a run are, in order and each once, the tickets of
    the requests among the events up to the end of the loop; all of them
    when the loop is still running. *)
Theorem tickets_acknowledged (evs : list Event) (a : Actor) :
  (exists rest,
     ticketsOf evs = closedTickets (snd (run a evs)) ++ rest) /\
  (forall a', fst (run a evs) = Running a' ->
     closedTickets (snd (run a evs)) = ticketsOf evs).
Proof.
  revert a. induction evs as [|ev evs IH]; intros a.
  - simpl. split; [exists []; reflexivity | reflexivity].
  - assert (Hcons : ticketsOf (ev :: evs) = ticketsOf [ev] ++ ticketsOf evs).
    { destruct ev; reflexivity. }
    rewrite Hcons. simpl run.
    destruct (step a ev) as [a1 es|a1 es|m a1 es|] eqn:Est.
    + destruct (step_effects a ev es (or_introl (ex_intro _ a1 Est)))
        as (_ & Hc & _).
      destruct (IH a1) as [[rest Hrest] Hall]. simpl.
      rewrite closedTickets_app, Hc. split.
      * exists rest. rewrite Hrest, app_assoc. reflexivity.
      * intros a' Hrun. rewrite (Hall a' Hrun). reflexivity.
    + destruct (step_effects a ev es
                  (or_intror (or_introl (ex_intro _ a1 Est))))
        as (_ & Hc & _).
      simpl. rewrite Hc. split.
      * exists (ticketsOf evs). reflexivity.
      * intros a' Hrun. discriminate Hrun.
    + destruct (step_effects a ev es
                  (or_intror (or_intror (ex_intro _ m (ex_intro _ a1 Est)))))
        as (_ & Hc & _).
      simpl. rewrite Hc. split.
      * exists (ticketsOf evs). reflexivity.
      * intros a' Hrun. discriminate Hrun.
    + assert (Hnone : ticketsOf [ev] = []).
      { destruct ev as [| |f| |tk now|now|now]; try reflexivity.
        simpl in Est.
        destruct (0 <? dur a);
          [destruct (newdur tk =? dur a)|];
          try destruct (newdur tk <=? 0); discriminate Est. }
      rewrite Hnone. simpl. apply IH.
Qed.

End EffectFacts.

Section TickerFacts.

Import Int IdleTimer.
Local Open Scope nat_scope.

Lemma peakLive_ge (effs : list Effect) :
  forall live, List.length live <= peakLive live effs.
Proof.
  destruct effs as [|e r]; intros live; simpl.
  - apply Nat.le_refl.
  - apply Nat.le_max_l.
Qed.

Lemma peakLive_app (xs ys : list Effect) :
  forall live,
    peakLive live (xs ++ ys)
    = Nat.max (peakLive live xs) (peakLive (liveTickers live xs) ys).
Proof.
  induction xs as [|e xs IH]; intros live.
  - simpl. symmetry. apply Nat.max_r. apply peakLive_ge.
  - simpl. rewrite IH. rewrite Nat.max_assoc. reflexivity.
Qed.

Lemma held_length (a : Actor) : List.length (held a) <= 1.
Proof. unfold held. destruct (heartbeat a); simpl; auto. Qed.

Lemma stopHeartbeat_peak (a : Actor) :
  peakLive (held a) (stopHeartbeat a) <= 1.
Proof.
  unfold held, stopHeartbeat. destruct (heartbeat a) as [h|]; simpl.
  - destruct (Nat.eq_dec (tk_id h) (tk_id h)); simpl; auto.
  - auto.
Qed.

(** The effects that create no ticker and stop none leave the peak at the
    number of tickers running before them. *)
Lemma peakLive_inert (effs : list Effect) :
  forallb (fun e => match e with
                    | EffNewTicker _ _ => false
                    | EffTickerStop _ => false
                    | _ => true
                    end) effs = true ->
  forall live, peakLive live effs = List.length live /\
               liveTickers live effs = live.
Proof.
  induction effs as [|e r IH]; intros H live.
  - simpl. auto.
  - simpl in H. apply andb_true_iff in H. destruct H as [He Hr].
    destruct e; try discriminate He;
      simpl; destruct (IH Hr live) as [Hp Hl];
      unfold liveTickers in *; simpl; rewrite Hp, Hl, Nat.max_id; auto.
Qed.

(** One iteration from a coherent state never has two tickers running. *)
Lemma step_peak (a : Actor) (ev : Event) :
  coherent a ->
  forall es,
    (exists a', step a ev = Continue a' es) \/
    (exists a', step a ev = Return a' es) \/
    (exists m a', step a ev = Panic m a' es) ->
    peakLive (held a) es <= 1.
Proof.
  intros Hco es Hstep.
  pose proof (held_length a) as Hlen.
  pose proof (stopHeartbeat_peak a) as Hstop.
  destruct (stopHeartbeat_live a) as [Hlive _].
  assert (Hinert : forall tail,
             forallb (fun e => match e with
                               | EffNewTicker _ _ => false
                               | EffTickerStop _ => false
                               | _ => true
                               end) tail = true ->
             peakLive (held a) (stopHeartbeat a ++ tail) <= 1).
  { intros tail Ht. rewrite peakLive_app, Hlive.
    destruct (peakLive_inert tail Ht []) as [Hp _]. rewrite Hp.
    simpl. rewrite Nat.max_0_r. exact Hstop. }
  assert (Hrearm : forall id d tail,
             forallb (fun e => match e with
                               | EffNewTicker _ _ => false
                               | EffTickerStop _ => false
                               | _ => true
                               end) tail = true ->
             peakLive (held a)
                      (stopHeartbeat a ++ EffNewTicker id d :: tail) <= 1).
  { intros id d tail Ht. rewrite peakLive_app, Hlive. simpl.
    destruct (peakLive_inert tail Ht [id]) as [Hp _]. rewrite Hp.
    simpl. apply Nat.max_lub; [exact Hstop | auto]. }
  assert (Hplain : forall tail,
             forallb (fun e => match e with
                               | EffNewTicker _ _ => false
                               | EffTickerStop _ => false
                               | _ => true
                               end) tail = true ->
             peakLive (held a) tail <= 1).
  { intros tail Ht. destruct (peakLive_inert tail Ht (held a)) as [Hp _].
    rewrite Hp. exact Hlen. }
  destruct ev as [| |f| |tk now|now|now]; simpl in Hstep.
  - destruct Hstep as [[a' H]|[[a' H]|[m [a' H]]]]; try discriminate H.
    injection H as _ <-. apply Hinert. reflexivity.
  - destruct Hstep as [[a' H]|[[a' H]|[m [a' H]]]]; try discriminate H.
    injection H as _ <-. apply Hplain. reflexivity.
  - destruct Hstep as [[a' H]|[[a' H]|[m [a' H]]]]; try discriminate H.
    injection H as _ <-. apply Hplain. reflexivity.
  - destruct Hstep as [[a' H]|[[a' H]|[m [a' H]]]]; try discriminate H.
    injection H as _ <-. apply Hplain. reflexivity.
  - destruct (0 <? dur a)%Z eqn:Hd.
    + destruct (newdur tk =? dur a)%Z.
      { destruct Hstep as [[a' H]|[[a' H]|[m [a' H]]]]; try discriminate H.
        injection H as _ <-. apply Hplain. reflexivity. }
      destruct (newdur tk <=? 0)%Z.
      * destruct Hstep as [[a' H]|[[a' H]|[m [a' H]]]]; try discriminate H.
        injection H as _ <-. apply Hinert. reflexivity.
      * destruct Hstep as [[a' H]|[[a' H]|[m [a' H]]]]; try discriminate H.
        injection H as _ <-. apply Hrearm. reflexivity.
    + apply Z.ltb_ge in Hd.
      assert (Hb : heartbeat a = None) by (destruct Hco; [assumption | lia]).
      destruct (newdur tk <=? 0)%Z.
      * destruct Hstep as [[a' H]|[[a' H]|[m [a' H]]]]; try discriminate H.
        injection H as _ <-. apply Hplain. reflexivity.
      * destruct Hstep as [[a' H]|[[a' H]|[m [a' H]]]]; try discriminate H.
        injection H as _ <-.
        specialize (Hrearm (nextTicker a) (newdur tk)
                           [EffStoreLast now; EffCloseTicket (done tk)]
                           eq_refl).
        rewrite (stopHeartbeat_unticked a Hb) in Hrearm. exact Hrearm.
  - destruct (heartch a); [|
      destruct Hstep as [[a' H]|[[a' H]|[m [a' H]]]]; discriminate H].
    destruct (dur a =? 0)%Z.
    { destruct Hstep as [[a' H]|[[a' H]|[m [a' H]]]]; try discriminate H.
      injection H as _ _ <-. apply Hinert. reflexivity. }
    destruct (uint64 (dur a) <? NanosecSince a now)%Z.
    + destruct (timeoutCallback a) as [f|].
      * destruct Hstep as [[a' H]|[[a' H]|[m [a' H]]]]; try discriminate H.
        injection H as _ <-. apply Hinert. reflexivity.
      * destruct Hstep as [[a' H]|[[a' H]|[m [a' H]]]]; try discriminate H.
        injection H as _ _ <-. apply Hinert. reflexivity.
    + destruct Hstep as [[a' H]|[[a' H]|[m [a' H]]]]; try discriminate H.
      injection H as _ <-. apply Hplain. reflexivity.
  - destruct Hstep as [[a' H]|[[a' H]|[m [a' H]]]]; try discriminate H.
    injection H as _ <-. apply Hplain. reflexivity.
Qed.

Lemma run_peak (evs : list Event) :
  forall a, coherent a -> peakLive (held a) (snd (run a evs)) <= 1.
Proof.
  induction evs as [|ev evs IH]; intros a Hco.
  - simpl. apply held_length.
  - simpl. pose proof (step_tickers a ev Hco) as Ht.
    destruct (step a ev) as [a1 es|a1 es|m a1 es|] eqn:Est.
    + destruct Ht as (Hco1 & Hl & _). simpl.
      rewrite peakLive_app, Hl. apply Nat.max_lub.
      * apply (step_peak a ev Hco). left. exists a1. exact Est.
      * apply IH. exact Hco1.
    + simpl. apply (step_peak a ev Hco). right. left. exists a1. exact Est.
    + simpl. apply (step_peak a ev Hco). right. right.
      exists m, a1. exact Est.
    + apply IH. exact Hco.
Qed.

Lemma run_positive (evs : list Event) :
  forall a, forallb positive_ticker (snd (run a evs)) = true.
Proof.
  induction evs as [|ev evs IH]; intros a.
  - reflexivity.
  - simpl. destruct (step a ev) as [a1 es|a1 es|m a1 es|] eqn:Est.
    + simpl. rewrite forallb_app, IH, andb_true_r.
      apply (step_effects a ev es). left. exists a1. exact Est.
    + simpl. apply (step_effects a ev es). right. left. exists a1. exact Est.
    + simpl. apply (step_effects a ev es). right. right.
      exists m, a1. exact Est.
    + apply IH.
Qed.

(** Over the whole life of a timer, from [newIdleTimer] on and whatever
    the events, the loop never has two tickers running at once, and it
    never calls [time.NewTicker] with a duration that is not positive. *)
Theorem tickers_disciplined
  (cb : option Callback) (d : Z) (evs : list Event) :
  peakLive [] (snd (newIdleTimer cb d)
               ++ snd (run (fst (newIdleTimer cb d)) evs)) <= 1 /\
  forallb positive_ticker
          (snd (newIdleTimer cb d)
           ++ snd (run (fst (newIdleTimer cb d)) evs)) = true.
Proof.
  split.
  - rewrite peakLive_app, newIdleTimer_held. apply Nat.max_lub.
    + unfold newIdleTimer. destruct (0 <? d)%Z; simpl; auto.
    + apply run_peak. apply newIdleTimer_coherent.
  - rewrite forallb_app, run_positive, andb_true_r.
    unfold newIdleTimer. destruct (0 <? d)%Z eqn:Hd; simpl; [|reflexivity].
    rewrite Hd. reflexivity.
Qed.

End TickerFacts.

Section ScheduleFacts.

Import Int IdleTimer.




(** One iteration on an event other than a tick does not raise the fired
    flag and starts no callback. *)
Lemma step_no_heartbeat (a : Actor) (ev : Event) :
  timeOutRaised a = false -> is_heartbeat ev = false ->
  match step a ev with
  | Continue a' es =>
      timeOutRaised a' = false /\ no_go es = true /\
      Forall (fun b => b = false) (sentTimedOut es)
  | Return _ es =>
      no_go es = true /\ Forall (fun b => b = false) (sentTimedOut es)
  | Panic _ _ _ => False
  | NotReady => False
  end.
Proof.
  intros Hr Hev.
  assert (Hstop : no_go (stopHeartbeat a) = true /\
                  sentTimedOut (stopHeartbeat a) = []).
  { unfold stopHeartbeat. destruct (heartbeat a); simpl; auto. }
  destruct Hstop as [Hgo Hsent].
  destruct ev as [| |f| |tk now|now|now]; simpl; try discriminate Hev.
  - unfold deferred. rewrite no_go_app, sentTimedOut_app, Hgo, Hsent.
    simpl. auto.
  - rewrite Hr. repeat split; auto.
  - repeat split; auto.
  - repeat split; auto.
  - destruct (0 <? dur a);
      [destruct (newdur tk =? dur a)|];
      try destruct (newdur tk <=? 0);
      rewrite ?no_go_app, ?sentTimedOut_app, ?Hgo, ?Hsent;
      simpl; repeat split; auto.
  - repeat split; auto.
Qed.

(** The fired flag rises only in the periodic check: from a state with
    the flag down, over events without ticks (any [SetIdleTimeout], any
    [Reset], any callback change), the flag stays down, every read of
    [t.TimedOut] receives [false], no callback is started and the loop
    does not panic. *)
Theorem flag_rises_only_on_check (a : Actor) (evs : list Event) :
  timeOutRaised a = false -> no_heartbeat evs = true ->
  no_go (snd (run a evs)) = true /\
  Forall (fun b => b = false) (sentTimedOut (snd (run a evs))) /\
  (forall m a', fst (run a evs) <> Panicked m a') /\
  (forall a', fst (run a evs) = Running a' -> timeOutRaised a' = false).
Proof.
  revert a. induction evs as [|ev evs IH]; intros a Hr Hq.
  - simpl. repeat split; auto.
    + intros m a' H; discriminate H.
    + intros a' H. injection H as <-. exact Hr.
  - simpl in Hq. apply andb_true_iff in Hq. destruct Hq as [Hev Hq].
    apply negb_true_iff in Hev.
    pose proof (step_no_heartbeat a ev Hr Hev) as Hs. simpl.
    destruct (step a ev) as [a1 es|a1 es|m a1 es|].
    + destruct Hs as (Hr1 & Hgo & Hsent).
      destruct (IH a1 Hr1 Hq) as (IHgo & IHsent & IHpanic & IHflag).
      simpl. repeat split; auto.
      * rewrite no_go_app, Hgo, IHgo. reflexivity.
      * rewrite sentTimedOut_app. apply Forall_app. auto.
    + destruct Hs as [Hgo Hsent]. simpl. repeat split; auto.
      * intros m a' H; discriminate H.
      * intros a' H; discriminate H.
    + contradiction.
    + contradiction.
Qed.

Lemma flag_rises_only_on_check_witness :
  let evs := [EvSetIdleTimeout (mkTicket 80 0%nat) 1000; EvReset 5;
              EvTimedOut] in
  no_go (snd (run timer50 evs)) = true /\
  Forall (fun b => b = false) (sentTimedOut (snd (run timer50 evs))) /\
  (forall m a', fst (run timer50 evs) <> Panicked m a') /\
  (forall a', fst (run timer50 evs) = Running a' ->
              timeOutRaised a' = false).
Proof.
  apply (flag_rises_only_on_check timer50
           [EvSetIdleTimeout (mkTicket 80 0%nat) 1000; EvReset 5;
            EvTimedOut]); reflexivity.
Defined.

(** A timer built with a duration that is not positive creates no ticker
    and is inert until a [SetIdleTimeout] with a positive duration: every
    read of [t.TimedOut] receives [false], no callback is started (none
    needs to be set), no ticker is created and the loop does not panic. *)
Theorem inert_from_construction
  (cb : option Callback) (d : Z) (evs : list Event) :
  d <= 0 -> quiet evs = true ->
  snd (newIdleTimer cb d) = [] /\
  no_go (snd (run (fst (newIdleTimer cb d)) evs)) = true /\
  Forall (fun b => b = false)
         (sentTimedOut (snd (run (fst (newIdleTimer cb d)) evs))) /\
  liveTickers [] (snd (run (fst (newIdleTimer cb d)) evs)) = [] /\
  (forall m a', fst (run (fst (newIdleTimer cb d)) evs) <> Panicked m a').
Proof.
  intros Hd Hq.
  assert (E : newIdleTimer cb d = (mkActor 0 cb false d None None 0, [])).
  { unfold newIdleTimer.
    replace (0 <? d) with false by (symmetry; apply Z.ltb_ge; exact Hd).
    reflexivity. }
  rewrite E. simpl fst. simpl snd. split; [reflexivity|].
  assert (Hu : Unticked (mkActor 0 cb false d None None 0))
    by (split; reflexivity).
  destruct (run_unticked evs _ Hu Hq) as (Hgo & Hlive & Hpanic & Hsent).
  repeat split; auto.
Qed.

Lemma inert_from_construction_witness :
  let evs := [EvTimedOut; EvReset 7; EvSetIdleTimeout (mkTicket 0 0%nat) 9;
              EvHeartbeat 1000; EvTimedOut] in
  snd (newIdleTimer None 0) = [] /\
  no_go (snd (run (fst (newIdleTimer None 0)) evs)) = true /\
  Forall (fun b => b = false)
         (sentTimedOut (snd (run (fst (newIdleTimer None 0)) evs))) /\
  liveTickers [] (snd (run (fst (newIdleTimer None 0)) evs)) = [] /\
  (forall m a', fst (run (fst (newIdleTimer None 0)) evs) <> Panicked m a').
Proof.
  apply (inert_from_construction None 0
           [EvTimedOut; EvReset 7; EvSetIdleTimeout (mkTicket 0 0%nat) 9;
            EvHeartbeat 1000; EvTimedOut]).
  - lia.
  - reflexivity.
Defined.

(** Switching the timer off and on again arms it from any state: after a
    [SetIdleTimeout] with a duration that is not positive and one with a
    positive duration, the loop is running with the new duration, the
    fired flag down, [last] at the clock reading of the second request,
    the callback as before, a ticker of the new period on the tick
    channel, and both tickets closed.  From a coherent state exactly that
    ticker is running. *)
Theorem off_then_on_arms
  (a : Actor) (tk0 tk1 : setTimeoutTicket) (n0 n1 : Z) :
  newdur tk0 <= 0 -> 0 < newdur tk1 ->
  exists a',
    fst (run a [EvSetIdleTimeout tk0 n0; EvSetIdleTimeout tk1 n1])
      = Running a' /\
    Armed a' /\ dur a' = newdur tk1 /\ last a' = n1 /\
    timeoutCallback a' = timeoutCallback a /\
    heartch a' = Some (mkTicker (nextTicker a) (newdur tk1)) /\
    closedTickets
      (snd (run a [EvSetIdleTimeout tk0 n0; EvSetIdleTimeout tk1 n1]))
      = [done tk0; done tk1] /\
    (coherent a ->
     liveTickers (held a)
       (snd (run a [EvSetIdleTimeout tk0 n0; EvSetIdleTimeout tk1 n1]))
     = [nextTicker a]).
Proof.
  intros H0 H1.
  assert (Hn0 : (newdur tk0 <=? 0) = true) by (apply Z.leb_le; exact H0).
  assert (Hn1 : (newdur tk1 <=? 0) = false) by (apply Z.leb_gt; exact H1).
  assert (Hoff : (0 <? newdur tk0) = false) by (apply Z.ltb_ge; exact H0).
  destruct (0 <? dur a) eqn:Hd.
  - apply Z.ltb_lt in Hd.
    assert (Hne : (newdur tk0 =? dur a) = false) by (apply Z.eqb_neq; lia).
    exists (arm (disarm a (newdur tk0) false) (newdur tk1) false n1).
    simpl.
    replace (0 <? dur a) with true by (symmetry; apply Z.ltb_lt; exact Hd).
    rewrite Hne, Hn0. simpl. rewrite Hoff, Hn1. simpl.
    split; [reflexivity|].
    split.
    { split; [simpl; exact H1|]. split; [reflexivity|].
      exists (mkTicker (nextTicker a) (newdur tk1)). split; reflexivity. }
    repeat split.
    + rewrite !closedTickets_app.
      destruct (stopHeartbeat_silent a) as (_ & Hc & _). rewrite Hc.
      reflexivity.
    + intros _. rewrite <- app_assoc, liveTickers_app.
      destruct (stopHeartbeat_live a) as [Hl _]. rewrite Hl. reflexivity.
  - apply Z.ltb_ge in Hd.
    exists (arm (mkActor (last a) (timeoutCallback a) (timeOutRaised a) 0
                         (heartbeat a) (heartch a) (nextTicker a))
                (newdur tk1) false n1).
    simpl.
    replace (0 <? dur a) with false by (symmetry; apply Z.ltb_ge; exact Hd).
    rewrite Hn0. simpl. rewrite Hn1. simpl.
    split; [reflexivity|].
    split.
    { split; [simpl; exact H1|]. split; [reflexivity|].
      exists (mkTicker (nextTicker a) (newdur tk1)). split; reflexivity. }
    repeat split.
    intros [Hb|Hpos]; [|lia].
    unfold held. rewrite Hb. reflexivity.
Qed.

Lemma off_then_on_arms_witness :
  exists a',
    fst (run (mkActor 0 (Some 1%nat) true 50 None None 1)
             [EvSetIdleTimeout (mkTicket 0 4%nat) 70;
              EvSetIdleTimeout (mkTicket 50 5%nat) 75])
      = Running a' /\
    Armed a' /\ dur a' = 50 /\ last a' = 75 /\
    timeoutCallback a' = Some 1%nat /\
    heartch a' = Some (mkTicker 1 50) /\
    closedTickets
      (snd (run (mkActor 0 (Some 1%nat) true 50 None None 1)
                [EvSetIdleTimeout (mkTicket 0 4%nat) 70;
                 EvSetIdleTimeout (mkTicket 50 5%nat) 75]))
      = [4%nat; 5%nat] /\
    (coherent (mkActor 0 (Some 1%nat) true 50 None None 1) ->
     liveTickers (held (mkActor 0 (Some 1%nat) true 50 None None 1))
       (snd (run (mkActor 0 (Some 1%nat) true 50 None None 1)
                 [EvSetIdleTimeout (mkTicket 0 4%nat) 70;
                  EvSetIdleTimeout (mkTicket 50 5%nat) 75]))
     = [1%nat]).
Proof.
  apply (off_then_on_arms (mkActor 0 (Some 1%nat) true 50 None None 1)
           (mkTicket 0 4%nat) (mkTicket 50 5%nat) 70 75).
  - simpl. lia.
  - simpl. lia.
Defined.

(** [GetIdleTimeout] after [SetIdleTimeout(d)]: the loop reports [d],
    except that on a timer that was inactive a [d] that is not positive
    is reported as 0. *)
Theorem set_then_get (a : Actor) (tk : setTimeoutTicket) (now : Z) :
  sentDur (snd (run a [EvSetIdleTimeout tk now; EvGetIdleTimeout]))
  = [if (0 <? dur a) || (0 <? newdur tk) then newdur tk else 0] /\
  GetIdleTimeout
    (hd_error
       (sentDur (snd (run a [EvSetIdleTimeout tk now; EvGetIdleTimeout]))))
  = if (0 <? dur a) || (0 <? newdur tk) then newdur tk else 0.
Proof.
  assert (Hs : sentDur (stopHeartbeat a) = []).
  { unfold stopHeartbeat. destruct (heartbeat a); reflexivity. }
  assert (Happ : forall xs ys, sentDur (xs ++ ys) = sentDur xs ++ sentDur ys).
  { induction xs as [|e xs IH]; intros ys; simpl; [reflexivity|].
    destruct e; simpl; rewrite IH; reflexivity. }
  assert (E : sentDur
                (snd (run a [EvSetIdleTimeout tk now; EvGetIdleTimeout]))
              = [if (0 <? dur a) || (0 <? newdur tk)
                 then newdur tk else 0]).
  { simpl. destruct (0 <? dur a) eqn:Hd; simpl.
    - destruct (newdur tk =? dur a) eqn:He.
      + apply Z.eqb_eq in He. simpl. rewrite He. reflexivity.
      + destruct (newdur tk <=? 0); simpl;
          rewrite ?Happ, ?Hs; reflexivity.
    - rewrite Z.ltb_antisym.
      destruct (newdur tk <=? 0); reflexivity. }
  rewrite E. split; reflexivity.
Qed.

End ScheduleFacts.

(** * Key generation *)

Section KeyGenFacts.

Import RSA.
Local Open Scope string_scope.

Variables PrivateKey RSAPublicKey Signer SSHPublicKey : Type.
Variable GenerateKey : Z -> option PrivateKey * option string.
Variable Public : PrivateKey -> RSAPublicKey.
Variable Validate : PrivateKey -> option string.
Variable EncodePEM : PrivateKey -> string.
Variable ParsePrivateKey : string -> option Signer * option string.
Variable NewPublicKey : RSAPublicKey -> option SSHPublicKey * option string.
Variable MarshalAuthorizedKey : SSHPublicKey -> string.
Variable panicOn : option string -> bool.
Variable writeError : FS -> string -> option string.

Local Abbreviation gen :=
  (GenRSAKeyPair PrivateKey RSAPublicKey Signer SSHPublicKey
                 GenerateKey Public Validate EncodePEM ParsePrivateKey
                 NewPublicKey MarshalAuthorizedKey panicOn writeError).

Lemma length_append (s t : string) :
  String.length (s ++ t) = (String.length s + String.length t)%nat.
Proof. induction s as [|c s IH]; simpl; [reflexivity | rewrite IH; reflexivity]. Qed.


Lemma substring_prefix (s t : string) :
  substring 0 (String.length s) (s ++ t) = s.
Proof.
  induction s as [|c s IH]; simpl.
  - destruct t; reflexivity.
  - rewrite IH. reflexivity.
Qed.






(** The public key line [GenRSAKeyPair] writes for key [k]: the
    authorized-key line, with its last byte replaced by a space, the
    email and a line feed when an email is given. *)
Local Abbreviation pubLine k email :=
  (if (email =? "")%string then MarshalAuthorizedKey k
   else substring 0 (Nat.pred (String.length (MarshalAuthorizedKey k)))
                  (MarshalAuthorizedKey k) ++ " " ++ email ++ nl).


(** Adding the email replaces the last byte of the key line, whatever it
    is, by a space, the email and a line feed; on an empty key line the
    slice expression panics. *)
Theorem email_replaces_last_byte
  (line email : string) (c : Ascii.ascii) (fs : FS) :
  appendEmail (line ++ String c "") email fs
  = Done (line ++ " " ++ email ++ nl) fs /\
  appendEmail "" email fs = Crash fs.
Proof.
  split; [|reflexivity].
  unfold appendEmail. rewrite length_append. simpl.
  rewrite Nat.add_1_r. unfold ret. rewrite substring_prefix. reflexivity.
Qed.

(** The two writes are not atomic.  When everything up to the writes
    succeeds and the private key is written but the write of the public
    key file fails, [GenRSAKeyPair] panics and leaves the private key
    file behind. *)
Theorem gen_panics_between_writes
  (rsaFile : string) (bits : Z) (email : string) (fs : FS)
  (priv : PrivateKey) (signer : option Signer) (k : SSHPublicKey)
  (e : string) :
  panicOn None = false -> panicOn (Some e) = true ->
  rsaFile <> "" ->
  GenerateKey bits = (Some priv, None) -> Validate priv = None ->
  ParsePrivateKey (EncodePEM priv) = (signer, None) ->
  NewPublicKey (Public priv) = (Some k, None) ->
  (email = "" \/ MarshalAuthorizedKey k <> "") ->
  writeError fs rsaFile = None ->
  (forall fs1, lookup fs1 rsaFile <> None ->
               writeError fs1 (rsaFile ++ ".pub") = Some e) ->
  exists fs',
    gen rsaFile bits email fs = Crash fs' /\
    ReadFile fs' rsaFile = (EncodePEM priv, None).
Proof.
  intros Hnil Herr Hname Hg Hv Hp Hn Hline Hw1 Hw2.
  assert (Hfile : (rsaFile =? "") = false)
    by (apply String.eqb_neq; exact Hname).
  unfold GenRSAKeyPair, RSAToSSHPublicKey, appendEmail, WriteFile,
    panicOnM, bind, ret, crash.
  rewrite Hg, Hnil, Hv, Hnil, Hp, Hnil, Hfile, Hn, Hnil.
  set (fs1 := (rsaFile,
               mkFile (EncodePEM priv)
                      match lookup fs rsaFile with
                      | Some f => perm f
                      | None => mode0600
                      end) :: fs).
  assert (H1 : lookup fs1 rsaFile <> None).
  { unfold fs1. simpl. rewrite String.eqb_refl. discriminate. }
  assert (Hread : ReadFile fs1 rsaFile = (EncodePEM priv, None)).
  { unfold ReadFile, fs1. simpl. rewrite String.eqb_refl. reflexivity. }
  exists fs1.
  destruct (email =? "") eqn:He.
  - rewrite Hw1. fold fs1. rewrite Hnil.
    rewrite (Hw2 fs1 H1), Herr. split; [reflexivity | exact Hread].
  - destruct Hline as [->|Hline]; [discriminate He|].
    destruct (String.length (MarshalAuthorizedKey k)) eqn:El.
    + destruct (MarshalAuthorizedKey k); [contradiction | discriminate El].
    + rewrite Hw1. fold fs1. rewrite Hnil.
      rewrite (Hw2 fs1 H1), Herr. split; [reflexivity | exact Hread].
Qed.

End KeyGenFacts.

Section KeyGenExamples.

Import RSA.
Local Open Scope string_scope.



Lemma gen_panics_between_writes_witness :
  exists fs',
    toyGen (fun fs p => if p =? "id_rsa.pub" then Some "disk full" else None)
           "id_rsa" 2048 "" []
    = Crash fs' /\
    ReadFile fs' "id_rsa" = ("PEM", None).
Proof.
  apply (gen_panics_between_writes nat nat string nat
           (fun _ => (Some 7%nat, None)) (fun k => k) (fun _ => None)
           (fun _ => "PEM") (fun b => (Some b, None))
           (fun k => (Some k, None)) (fun _ => "ssh-rsa AAAA" ++ nl)
           toyPanicOn
           (fun fs p => if p =? "id_rsa.pub" then Some "disk full" else None)
           "id_rsa" 2048 "" [] 7%nat (Some "PEM") 7%nat "disk full").
  - reflexivity.
  - reflexivity.
  - discriminate.
  - reflexivity.
  - reflexivity.
  - reflexivity.
  - reflexivity.
  - left. reflexivity.
  - reflexivity.
  - intros fs1 _. reflexivity.
Defined.

End KeyGenExamples.
